(** * TritonHTTP: request parsing, response serialization and the
      per-connection loop

    A shallow embedding of [pkg/tritonhttp]: [request.go], [response.go] and
    the server file holding [HandleConnection].  Go strings are byte
    sequences and are modelled by [string] (a list of 8-bit [ascii]); Go
    [map[string]string] values are [gmap string string]; [int] is [Z].
    Calls into the operating system, the clock and the Unicode tables are
    fields of an environment record [Env]. *)

From Stdlib Require Import ZArith Ascii DecimalString.
From stdpp Require Import base option list gmap strings sorting.

Local Open Scope Z_scope.

(** ** Byte-string primitives of Go's [strings] package *)

Definition CR : ascii := "013"%char.
Definition LF : ascii := "010"%char.

(** [len(s)] *)
Definition len (s : string) : Z := Z.of_nat (String.length s).

(** [s[:n]] and [s[n:]] for [0 <= n <= len(s)]. *)
Fixpoint str_take (n : nat) (s : string) : string :=
  match n, s with
  | S n', String c s' => String c (str_take n' s')
  | _, _ => ""
  end.

Fixpoint str_drop (n : nat) (s : string) : string :=
  match n, s with
  | S n', String _ s' => str_drop n' s'
  | _, _ => s
  end.

(** [strings.HasPrefix(s, p)] *)
Fixpoint strings_HasPrefix (s p : string) : bool :=
  match p, s with
  | "", _ => true
  | String a p', String b s' => if decide (a = b) then strings_HasPrefix s' p' else false
  | String _ _, "" => false
  end.

(** [strings.Index(s, sep)]: position of the first occurrence, [-1] if none. *)
Fixpoint strings_Index (s sep : string) : Z :=
  if strings_HasPrefix s sep then 0
  else match s with
       | "" => -1
       | String _ s' =>
           let r := strings_Index s' sep in
           if r <? 0 then -1 else r + 1
       end.

(** [strings.LastIndex(s, sep)]: position of the last occurrence, [-1] if
    none. *)
Fixpoint strings_LastIndex (s sep : string) : Z :=
  match s with
  | "" => if strings_HasPrefix "" sep then 0 else -1
  | String _ s' =>
      let r := strings_LastIndex s' sep in
      if 0 <=? r then r + 1
      else if strings_HasPrefix s sep then 0 else -1
  end.

(** [strings.Contains(s, sep)] is [Index(s, sep) >= 0]. *)
Definition strings_Contains (s sep : string) : bool :=
  0 <=? strings_Index s sep.

(** The loop of [strings.genSplit] for a non-empty separator: at most
    [n] cuts at successive non-overlapping occurrences found by [Index],
    the last piece being the unsplit rest. *)
Fixpoint genSplit (n : nat) (s sep : string) : list string :=
  match n with
  | O => [s]
  | S n' =>
      let m := strings_Index s sep in
      if m <? 0 then [s]
      else str_take (Z.to_nat m) s
             :: genSplit n' (str_drop (Z.to_nat (m + len sep)) s) sep
  end.

(** [strings.SplitN(s, sep, n)] for [n > 0] and non-empty [sep]:
    [n] pieces at most, hence [n - 1] cuts. *)
Definition strings_SplitN (s sep : string) (n : nat) : list string :=
  genSplit (Nat.pred n) s sep.

(** [strings.Split(s, sep)] for non-empty [sep]: Go asks for
    [Count(s, sep) + 1] pieces, clamped to [len(s) + 1]; the loop ends at
    the first failed [Index], so the clamp alone is used as the bound. *)
Definition strings_Split (s sep : string) : list string :=
  genSplit (String.length s) s sep.

(** [strings.Join(elems, sep)] *)
Fixpoint strings_Join (elems : list string) (sep : string) : string :=
  match elems with
  | [] => ""
  | [x] => x
  | x :: rest => x +:+ sep +:+ strings_Join rest sep
  end.

(** A byte below [utf8.RuneSelf] (0x80). *)
Definition byte_isASCII (c : ascii) : bool :=
  match c with Ascii _ _ _ _ _ _ _ b7 => negb b7 end.

Fixpoint isASCII (s : string) : bool :=
  match s with
  | "" => true
  | String c s' => byte_isASCII c && isASCII s'
  end.

Definition byte_toLower (c : ascii) : ascii :=
  let n := N_of_ascii c in
  if ((65 <=? n) && (n <=? 90))%N then ascii_of_N (n + 32) else c.

Fixpoint map_bytes (f : ascii → ascii) (s : string) : string :=
  match s with
  | "" => ""
  | String c s' => String (f c) (map_bytes f s')
  end.

(** The [asciiSpace] table of package [strings]. *)
Definition asciiSpace (c : ascii) : bool :=
  match c with
  | "009" | "010" | "011" | "012" | "013" | " " => true
  | _ => false
  end%char.

Fixpoint trim_left (s : string) : string :=
  match s with
  | String c s' => if asciiSpace c then trim_left s' else s
  | "" => ""
  end.

Fixpoint trim_right (s : string) : string :=
  match s with
  | "" => ""
  | String c s' =>
      match trim_right s' with
      | "" => if asciiSpace c then "" else String c ""
      | t => String c t
      end
  end.

(** The class [\s] of Go regular expressions: [[\t\n\f\r ]]. *)
Definition regexp_space (c : ascii) : bool :=
  match c with
  | "009" | "010" | "012" | "013" | " " => true
  | _ => false
  end%char.

Fixpoint skip_regexp_space (s : string) : string :=
  match s with
  | String c s' => if regexp_space c then skip_regexp_space s' else s
  | "" => ""
  end.

(** The leftmost match of [:\s*] in [s]: the text before it and the text
    after it ([\s*] is greedy). *)
Fixpoint cut_colon_space (s : string) : option (string * string) :=
  match s with
  | "" => None
  | String c s' =>
      if decide (c = ":"%char) then Some ("", skip_regexp_space s')
      else match cut_colon_space s' with
           | Some (b, a) => Some (String c b, a)
           | None => None
           end
  end.

(** [regexp.MustCompile(`:\s*`).Split(s, 2)]: the empty string gives
    [[""]]; a match of the expression is never empty, so the first match
    always yields two pieces; without a match the whole string is the
    only piece. *)
Definition regexp_colon_space_Split2 (s : string) : list string :=
  match cut_colon_space s with
  | Some (b, a) => [b; a]
  | None => [s]
  end.

(** The last byte of [s], for tests of the form [s[len(s)-1:] == "c"]. *)
Fixpoint last_byte (s : string) : option ascii :=
  match s with
  | "" => None
  | String c "" => Some c
  | String _ s' => last_byte s'
  end.

(** The first byte of [s], for tests on [s[0]]. *)
Definition first_byte (s : string) : option ascii :=
  match s with
  | "" => None
  | String c _ => Some c
  end.

(** [fmt.Sprintf("%v", n)] for an [int]. *)
Definition itoa (n : Z) : string := NilZero.string_of_int (Z.to_int n).

(** ** Errors and the environment *)

(** Go [error] values that the package distinguishes: [io.EOF], a
    [net.Error] with its [Timeout()] answer, and errors made by
    [fmt.Errorf] / [errors.New]. *)
Inductive error : Type :=
  | io_EOF
  | net_Error (timeout : bool)
  | fmt_Errorf (msg : string).

Global Instance error_eq_dec : EqDecision error.
Proof. solve_decision. Defined.

Inductive FileMode : Type := ModeRegular | ModeDir | ModeOther.

Record FileInfo : Type := { Size : Z; ModTime : Z }.

(** What the package takes from outside: the Unicode paths of
    [strings.ToLower] and [strings.TrimSpace] (used only on strings with
    a byte at or above 0x80), the helpers [CanonicalHeaderKey],
    [FormatTime] and [MIMETypeByExtension] of the package's utility
    file, the clock (the instant returned by the [n]-th call of
    [time.Now]), and the file system. *)
Record Env : Type := {
  unicode_ToLower : string → string;
  unicode_TrimSpace : string → string;
  CanonicalHeaderKey : string → string;
  FormatTime : Z → string;
  MIMETypeByExtension : string → string;
  time_Now : nat → Z;
  path_Join : string → string → string;
  filepath_Rel : string → string → option string;
  filepath_Ext : string → string;
  os_Lstat : string → option FileMode;
  os_Stat : string → option FileInfo;
  os_Open : string → option string
}.

(** [strings.ToLower]: byte-wise on ASCII-only input, Unicode mapping
    otherwise. *)
Definition strings_ToLower (env : Env) (s : string) : string :=
  if isASCII s then map_bytes byte_toLower s else unicode_ToLower env s.

(** [strings.TrimSpace]: the [asciiSpace] table on ASCII-only input,
    [unicode.IsSpace] trimming otherwise. *)
Definition strings_TrimSpace (env : Env) (s : string) : string :=
  if isASCII s then trim_right (trim_left s) else unicode_TrimSpace env s.

(** ** request.go *)

Record Request : Type := {
  Method : string;
  URL : string;
  Proto : string;
  Header : gmap string string;
  Host : string;
  Close : bool
}.

Definition CRLF : string := String CR (String LF "").

(** The reader [br] is the sequence of bytes not yet consumed, followed by
    end of stream. *)
Definition Reader : Type := string.

(** Modelled from the spec: [ReadLine] lives in the package's utility
    file.  The Line Scanner produces the next line terminated by CRLF with
    the CRLF stripped and consumes nothing beyond the terminator; when no
    complete line is available it signals an error.  The stream is then
    at its end, so the error is [io.EOF] and the pending bytes are used
    up.  The string returned next to an error is not specified and the
    callers never look at it, so the result is a line or an error. *)
Definition ReadLine (br : Reader) : (string + error) * Reader :=
  let m := strings_Index br CRLF in
  if m <? 0 then (inr io_EOF, "")
  else (inl (str_take (Z.to_nat m) br), str_drop (Z.to_nat (m + 2)) br).

(** [fmt]'s [%v] of a [[]string]. *)
Definition fmt_strings (l : list string) : string :=
  "[" +:+ strings_Join l " " +:+ "]".

(** The methods have a pointer receiver: they return the updated request
    next to the error. *)
Definition ParseRequestInitLine (r : Request) (line : string)
  : Request * option error :=
  let fields := strings_SplitN line " " 3 in
  match fields with
  | [f0; f1; f2] =>
      ({| Method := f0; URL := f1; Proto := f2;
          Header := Header r; Host := Host r; Close := Close r |}, None)
  | _ =>
      (r, Some (fmt_Errorf
                  ("Could not parse the request line got fields: "
                   +:+ fmt_strings fields)))
  end.

Definition ParseRequestHeader (env : Env) (r : Request) (line : string)
  : Request * option error :=
  match regexp_colon_space_Split2 line with
  | [h0; h1] =>
      let key := strings_ToLower env h0 in
      if bool_decide (key ≠ "" ∧ last_byte key = Some " "%char)
         || bool_decide (len key = 0)
      then (r, Some (fmt_Errorf ("Bad Key: " +:+ line)))
      else
        let value := h1 in
        if decide (key = "connection") then
          ({| Method := Method r; URL := URL r; Proto := Proto r;
              Header := Header r; Host := Host r;
              Close := bool_decide (strings_TrimSpace env value = "close") |},
           None)
        else if decide (key = "host") then
          ({| Method := Method r; URL := URL r; Proto := Proto r;
              Header := Header r; Host := value; Close := Close r |}, None)
        else
          ({| Method := Method r; URL := URL r; Proto := Proto r;
              Header := <[h0 := h1]> (Header r);
              Host := Host r; Close := Close r |}, None)
  | _ => (r, Some (fmt_Errorf ("Bad Header: " +:+ line)))
  end.

Definition ValidateRequest (r : Request) : option error :=
  if decide (Method r ≠ "GET") then
    Some (fmt_Errorf ("Method Not Allowed  " +:+ Method r))
  else if bool_decide (URL r = "")
          || bool_decide (first_byte (URL r) ≠ Some "/"%char) then
    Some (fmt_Errorf ("Got Wrong URL   " +:+ URL r))
  else if decide (Proto r ≠ "HTTP/1.1") then
    Some (fmt_Errorf ("HTTP version not supported:  " +:+ Proto r))
  else if decide (Host r = "") then
    Some (fmt_Errorf ("Invalid Host Header:  " +:+ Proto r))
  else None.

(** [&Request{Header: make(map[string]string)}] *)
Definition Request_new : Request :=
  {| Method := ""; URL := ""; Proto := ""; Header := ∅;
     Host := ""; Close := false |}.

(** The header loop of [ReadRequest]: it breaks on an empty line and on a
    failed read alike, and returns early on a header that does not parse.
    Every line read takes at least two bytes off the reader, so
    [S (length br)] rounds are never used up ([readHeaders_fuel]). *)
Fixpoint readHeaders (fuel : nat) (env : Env) (req : Request) (br : Reader)
  : Request * option error * Reader :=
  match fuel with
  | O => (req, None, br)
  | S fuel' =>
      match ReadLine br with
      | (inr _, br') => (req, None, br')
      | (inl line, br') =>
          if decide (line = "") then (req, None, br')
          else match ParseRequestHeader env req line with
               | (req', Some err) => (req', Some err, br')
               | (req', None) => readHeaders fuel' env req' br'
               end
      end
  end.

(** [ReadRequest] returns [(req, bytesReceived, err)]; the reader it leaves
    behind is the fourth component. *)
Definition ReadRequest (env : Env) (br : Reader)
  : option Request * bool * option error * Reader :=
  let req := Request_new in
  match ReadLine br with
  | (inr err, br1) => (None, false, Some err, br1)
  | (inl Initline, br1) =>
      match ParseRequestInitLine req Initline with
      | (_, Some err) => (None, false, Some err, br1)
      | (req1, None) =>
          match readHeaders (S (String.length br1)) env req1 br1 with
          | (_, Some err, br2) => (None, false, Some err, br2)
          | (req2, None, br2) =>
              match ValidateRequest req2 with
              | Some err => (None, false, Some err, br2)
              | None => (Some req2, true, None, br2)
              end
          end
      end
  end.

(** The four validation rules in the words of the specification: the
    method is the supported one, the target is non-empty and begins with
    a slash, the version is the supported literal, the host is
    non-empty. *)
Definition Valid (r : Request) : Prop :=
  Method r = "GET"
  ∧ (URL r ≠ "" ∧ first_byte (URL r) = Some "/"%char)
  ∧ Proto r = "HTTP/1.1"
  ∧ Host r ≠ "".

(** The request as it stands when header parsing completes, before
    validation; [None] when the request line or a header is refused. *)
Definition parsed (env : Env) (br : Reader) : option Request :=
  match ReadLine br with
  | (inr _, _) => None
  | (inl Initline, br1) =>
      match ParseRequestInitLine Request_new Initline with
      | (_, Some _) => None
      | (req1, None) =>
          match readHeaders (S (String.length br1)) env req1 br1 with
          | (_, Some _, _) => None
          | (req2, None, _) => Some req2
          end
      end
  end.

(** Why the header loop stopped. *)
Inductive HeaderStop : Type :=
  | StopEmptyLine
  | StopReadFailure (err : error)
  | StopHeaderError (err : error).

(** The runs of the header loop: from request [req] and reader [br] the
    loop stops for the given reason with request [req'] and reader
    [br']. *)
Inductive HeadersEnd (env : Env)
  : Request → Reader → HeaderStop → Request → Reader → Prop :=
  | HeadersEnd_empty req br br' :
      ReadLine br = (inl "", br') →
      HeadersEnd env req br StopEmptyLine req br'
  | HeadersEnd_read_failure req br err br' :
      ReadLine br = (inr err, br') →
      HeadersEnd env req br (StopReadFailure err) req br'
  | HeadersEnd_header_error req br line br' req' err :
      ReadLine br = (inl line, br') → line ≠ "" →
      ParseRequestHeader env req line = (req', Some err) →
      HeadersEnd env req br (StopHeaderError err) req' br'
  | HeadersEnd_next req br line br1 req1 stop req2 br2 :
      ReadLine br = (inl line, br1) → line ≠ "" →
      ParseRequestHeader env req line = (req1, None) →
      HeadersEnd env req1 br1 stop req2 br2 →
      HeadersEnd env req br stop req2 br2.

(** ** response.go *)

Record Response : Type := {
  StatusCode : Z;
  ResProto : string;
  ResHeader : gmap string string;
  ResRequest : option Request;
  FilePath : string
}.

Definition mapStatusWithMessage : gmap Z string :=
  <[200 := "OK"]> (<[400 := "Bad Request"]> (<[404 := "Not Found"]> ∅)).

(** Indexing a Go map: the zero value of the element type when the key is
    absent. *)
Definition map_index {K} `{Countable K} (m : gmap K string) (k : K) : string :=
  default "" (m !! k).

(** An [io.Writer]: the bytes it has taken so far and how many more it
    takes before its writes fail ([None]: it never fails). *)
Record Writer : Type := { written : string; room : option nat }.

(** [bufio.NewWriter(w)], [WriteString(s)] and [Flush()] on a fresh buffer:
    the bytes of [s] reach [w] in order; the first failed write of [w] is
    the error. *)
Definition bufio_WriteString_Flush (w : Writer) (s : string)
  : Writer * option error :=
  match room w with
  | None => ({| written := written w +:+ s; room := None |}, None)
  | Some n =>
      if (String.length s <=? n)%nat then
        ({| written := written w +:+ s;
            room := Some (n - String.length s)%nat |}, None)
      else
        ({| written := written w +:+ str_take n s; room := Some O |},
         Some (fmt_Errorf "short write"))
  end.

Definition statusLine (res : Response) : string :=
  ResProto res +:+ " " +:+ itoa (StatusCode res) +:+ " "
  +:+ map_index mapStatusWithMessage (StatusCode res) +:+ CRLF.

Definition WriteStatusLine (res : Response) (w : Writer)
  : Writer * option error :=
  bufio_WriteString_Flush w (statusLine res).

(** [sort.Strings]: ascending byte-wise order. *)
Definition sort_Strings (keys : list string) : list string :=
  merge_sort String.le keys.

(** The keys of [h] in one order that [for k := range h] may produce; Go
    leaves the order open, any permutation of this list is possible. *)
Definition range_keys (h : gmap string string) : list string :=
  (map_to_list h).*1.

(** The string [responseHeader] built by [WriteSortedHeaders] when the
    [range] loop has collected [keys]. *)
Definition responseHeader (h : gmap string string) (keys : list string)
  : string :=
  (if decide (size h ≠ 0%nat) then
     foldl (λ acc k, acc +:+ (k +:+ ": " +:+ map_index h k +:+ CRLF))
           "" (sort_Strings keys)
   else "") +:+ CRLF.

(** The header block of the specification: each entry as [Key: value]
    followed by CRLF, in the order given, then one blank line. *)
Fixpoint headerBlock (entries : list (string * string)) : string :=
  match entries with
  | [] => CRLF
  | (k, v) :: rest => k +:+ ": " +:+ v +:+ CRLF +:+ headerBlock rest
  end.

(** Strictly ascending byte-wise order. *)
Definition string_lt (a b : string) : Prop := String.le a b ∧ a ≠ b.

(** A header map filled by assignments [h[k] = v] made in the order of
    [ins]. *)
Definition assign_all (ins : list (string * string)) : gmap string string :=
  foldl (λ m kv, <[kv.1 := kv.2]> m) ∅ ins.

Definition WriteSortedHeaders (res : Response) (w : Writer)
  : Writer * option error :=
  bufio_WriteString_Flush w
    (responseHeader (ResHeader res) (range_keys (ResHeader res))).

(** [WriteBody]: nothing for an empty path or a file that does not open;
    otherwise the file content is copied and only the error of the final
    [Flush] is returned. *)
Definition WriteBody (env : Env) (res : Response) (w : Writer)
  : Writer * option error :=
  if decide (FilePath res = "") then (w, None)
  else match os_Open env (FilePath res) with
       | None => (w, None)
       | Some content => bufio_WriteString_Flush w content
       end.

(** [(res *Response) Write(w)] *)
Definition Response_Write (env : Env) (res : Response) (w : Writer)
  : Writer * option error :=
  match WriteStatusLine res w with
  | (w1, Some err) => (w1, Some err)
  | (w1, None) =>
      match WriteSortedHeaders res w1 with
      | (w2, Some err) => (w2, Some err)
      | (w2, None) => WriteBody env res w2
      end
  end.

(** ** The server: [HandleGoodRequest], the status helpers and
       [HandleConnection] *)

(** The package variable [Proto] (the structs have fields of that name). *)
Definition pkg_Proto : string := "HTTP/1.1".

Record Server : Type := { Addr : string; DocRoot : string }.

(** The zero value [Response{}]. *)
Definition Response_zero : Response :=
  {| StatusCode := 0; ResProto := ""; ResHeader := ∅;
     ResRequest := None; FilePath := "" |}.

(** [url[len(url)-1:] == "/"].  The slice is out of range for the empty
    string; [url] is the URL of a request that passed [ValidateRequest]
    and so is not empty. *)
Definition ends_in_slash (url : string) : bool :=
  bool_decide (last_byte url = Some "/"%char).

Definition ReadFilePath (env : Env) (fileName url : string)
  : string * option error :=
  match os_Lstat env fileName with
  | None => (fileName, Some (fmt_Errorf "lstat"))
  | Some ModeRegular =>
      if ends_in_slash url
      then (fileName, Some (fmt_Errorf ("Invalid file" +:+ url)))
      else (fileName, None)
  | Some ModeDir =>
      if negb (ends_in_slash url)
      then (fileName, Some (fmt_Errorf ("Dir file" +:+ url)))
      else (path_Join env fileName "./index.html", None)
  | Some ModeOther => (fileName, None)
  end.

Definition with_StatusCode (res : Response) (code : Z) : Response :=
  {| StatusCode := code; ResProto := ResProto res;
     ResHeader := ResHeader res; ResRequest := ResRequest res;
     FilePath := FilePath res |}.

Definition add_Connection_close (env : Env) (close : bool)
    (h : gmap string string) : gmap string string :=
  if close then <[CanonicalHeaderKey env "Connection" := "close"]> h else h.

(** [HandleGoodRequest]; [clock] counts the calls of [time.Now] made so
    far and is returned advanced. *)
Definition HandleGoodRequest (env : Env) (s : Server) (req : Request)
    (clock : nat) : Response * nat :=
  let res :=
    {| StatusCode := 200; ResProto := "";
       ResHeader :=
         add_Connection_close env (Close req)
           {[ CanonicalHeaderKey env "Date" :=
                FormatTime env (time_Now env clock) ]};
       ResRequest := None; FilePath := "" |} in
  let clock := S clock in
  let fileName := path_Join env (DocRoot s) (URL req) in
  match filepath_Rel env (DocRoot s) fileName with
  | None => (with_StatusCode res 404, clock)
  | Some fileRel =>
      if (2 <=? len fileRel) && bool_decide (str_take 2 fileRel = "..")
      then (with_StatusCode res 404, clock)
      else
        match ReadFilePath env fileName (URL req) with
        | (_, Some _) => (with_StatusCode res 404, clock)
        | (fileName, None) =>
            match os_Stat env fileName with
            | None => (with_StatusCode res 404, clock)
            | Some info =>
                let fileExt := filepath_Ext env fileName in
                ({| StatusCode := 200; ResProto := "";
                    ResHeader :=
                      add_Connection_close env (Close req)
                        (<[CanonicalHeaderKey env "Last-Modified" :=
                             FormatTime env (ModTime info)]>
                        (<[CanonicalHeaderKey env "Content-Length" :=
                             itoa (Size info)]>
                        (<[CanonicalHeaderKey env "Content-Type" :=
                             MIMETypeByExtension env fileExt]>
                        {[ CanonicalHeaderKey env "Date" :=
                             FormatTime env (time_Now env clock) ]})));
                    ResRequest := None; FilePath := fileName |},
                 S clock)
            end
        end
  end.

Definition HandleOK (res : Response) (req : Request) (path : string)
  : Response :=
  {| StatusCode := 200; ResProto := pkg_Proto; ResHeader := ResHeader res;
     ResRequest := ResRequest res; FilePath := FilePath res |}.

Definition HandleBadRequest (env : Env) (res : Response) (clock : nat)
  : Response * nat :=
  ({| StatusCode := 400; ResProto := pkg_Proto;
      ResHeader :=
        <[CanonicalHeaderKey env "Connection" := "close"]>
          {[ CanonicalHeaderKey env "Date" :=
               FormatTime env (time_Now env clock) ]};
      ResRequest := ResRequest res; FilePath := "" |}, S clock).

Definition HandleNotFound (res : Response) (req : Request) : Response :=
  {| StatusCode := 404; ResProto := pkg_Proto; ResHeader := ResHeader res;
     ResRequest := ResRequest res; FilePath := "" |}.

(** The state of one [HandleConnection] call between two rounds of its
    loop: the accumulation buffer [remaining], the responses handed to
    [res.Write(conn)] so far (oldest first), whether [conn.Close()] was
    called and the function returned, and the clock. *)
Record Conn : Type := {
  remaining : string;
  sent : list Response;
  closed : bool;
  clock : nat
}.

Definition Conn_init : Conn :=
  {| remaining := ""; sent := []; closed := false; clock := O |}.

(** What one round of the loop meets: [SetReadDeadline] fails, or
    [conn.Read(buf)] returns [size] bytes ([data = buf[:size]], at most
    8192 of them) and an error or [nil]. *)
Inductive Event : Type :=
  | SetReadDeadlineFails
  | ReadReturns (data : string) (err : option error).

Definition requestEndDelim : string := CRLF +:+ CRLF.

Definition close_conn (st : Conn) : Conn :=
  {| remaining := remaining st; sent := sent st; closed := true;
     clock := clock st |}.

(** [res := Response{}; res.HandleBadRequest(); res.Write(conn);
    conn.Close(); return] *)
Definition reply_BadRequest (env : Env) (st : Conn) : Conn :=
  let '(res, clk) := HandleBadRequest env Response_zero (clock st) in
  {| remaining := remaining st; sent := sent st ++ [res]; closed := true;
     clock := clk |}.

(** The response to a request that parsed. *)
Definition reply_GoodRequest (env : Env) (s : Server) (req : Request)
    (clk : nat) : Response * nat :=
  let '(res, clk') := HandleGoodRequest env s req clk in
  (if decide (StatusCode res = 404) then HandleNotFound res req
   else HandleOK res req (FilePath res), clk').

(** The body of [for _, request := range requests]; the result is closed
    when the body returned from [HandleConnection].  [ReadRequest] never
    gives a nil request without an error ([ReadRequest_shape]); that case
    would dereference nil and is closed here. *)
Definition serve (env : Env) (s : Server) (st : Conn) (request : string)
  : Conn :=
  match ReadRequest env (request +:+ CRLF) with
  | (_, _, Some readErr, _) => reply_BadRequest env st
  | (Some req, _, None, _) =>
      let '(res, clk) := reply_GoodRequest env s req (clock st) in
      {| remaining := remaining st; sent := sent st ++ [res];
         closed := Close req; clock := clk |}
  | (None, _, None, _) => close_conn st
  end.

Fixpoint serveAll (env : Env) (s : Server) (st : Conn)
    (requests : list string) : Conn :=
  match requests with
  | [] => st
  | request :: rest =>
      let st' := serve env s st request in
      if closed st' then st' else serveAll env s st' rest
  end.

Definition is_Timeout (err : option error) : bool :=
  match err with
  | Some (net_Error true) => true
  | _ => false
  end.

(** One round of the [for] loop of [HandleConnection]. *)
Definition iteration (env : Env) (s : Server) (st : Conn) (ev : Event)
  : Conn :=
  if closed st then st
  else
    match ev with
    | SetReadDeadlineFails => close_conn st
    | ReadReturns data err =>
        let size := len data in
        let failed := bool_decide (err ≠ None) || (size =? 0) in
        if failed && bool_decide (remaining st ≠ "")
        then reply_BadRequest env st
        else if failed && bool_decide (err = Some io_EOF)
        then close_conn st
        else if is_Timeout err then close_conn st
        else
          let remaining' := remaining st +:+ data in
          if strings_Contains remaining' requestEndDelim then
            let index := strings_LastIndex remaining' requestEndDelim in
            let requests :=
              strings_Split (str_take (Z.to_nat index) remaining')
                            requestEndDelim in
            let st' :=
              serveAll env s
                {| remaining := remaining'; sent := sent st;
                   closed := false; clock := clock st |} requests in
            if closed st' then st'
            else {| remaining := str_drop (Z.to_nat (index + 4)) remaining';
                    sent := sent st'; closed := false; clock := clock st' |}
          else {| remaining := remaining'; sent := sent st;
                  closed := false; clock := clock st |}
    end.

(** [HandleConnection] run against a script of events. *)
Definition HandleConnection (env : Env) (s : Server) (evs : list Event)
  : Conn :=
  foldl (iteration env s) Conn_init evs.

(** The bytes a connection [w] holds after the responses [l] were written
    to it in order (the result of each [Write] is dropped, as
    [HandleConnection] does). *)
Definition wire (env : Env) (w : Writer) (l : list Response) : Writer :=
  foldl (λ w res, (Response_Write env res w).1) w l.

(** The response a candidate request text is owed when it is handled
    at clock [clk]: the 400 response if it does not parse, the response
    of [HandleGoodRequest] completed by [HandleNotFound] or [HandleOK] if
    it does. *)
Definition answer (env : Env) (s : Server) (clk : nat) (request : string)
  : Response :=
  match ReadRequest env (request +:+ CRLF) with
  | (Some req, _, None, _) => (reply_GoodRequest env s req clk).1
  | _ => (HandleBadRequest env Response_zero clk).1
  end.

Definition Answers (env : Env) (s : Server) (request : string)
    (res : Response) : Prop :=
  ∃ clk, res = answer env s clk request.

(** A candidate parses when [ReadRequest] gives a request for it. *)
Definition parses (env : Env) (request : string) : option Request :=
  (ReadRequest env (request +:+ CRLF)).1.1.1.

(** A candidate ends the connection when it does not parse or when its
    request has the [Close] flag. *)
Definition closes (env : Env) (request : string) : bool :=
  match parses env request with
  | Some req => Close req
  | None => true
  end.

(** A 400 response carrying [Connection: close]. *)
Definition BadRequest_close (env : Env) (res : Response) : Prop :=
  StatusCode res = 400
  ∧ ResHeader res !! CanonicalHeaderKey env "Connection" = Some "close".

(** ** A small environment to run the definitions in *)

Definition test_files : gmap string string :=
  <["/www/a" := "AAA"]> (<["/www/b" := "BB"]> ∅).

Definition test_env : Env :=
  {| unicode_ToLower := λ s, s;
     unicode_TrimSpace := λ s, s;
     CanonicalHeaderKey := λ s, s;
     FormatTime := λ t, "t" +:+ itoa t;
     MIMETypeByExtension := λ _, "text/plain";
     time_Now := λ n, Z.of_nat n;
     path_Join := λ a b, a +:+ b;
     filepath_Rel := λ base target,
       if strings_HasPrefix target base
       then Some (str_drop (String.length base) target) else None;
     filepath_Ext := λ _, "";
     os_Lstat := λ p, (λ _, ModeRegular) <$> test_files !! p;
     os_Stat := λ p,
       match test_files !! p with
       | Some c => Some {| Size := len c; ModTime := 7 |}
       | None => None
       end;
     os_Open := λ p, test_files !! p |}.

Definition test_server : Server := {| Addr := ":0"; DocRoot := "/www" |}.

Definition test_conn : Writer := {| written := ""; room := None |}.

(** To keep sample inputs readable, [crlf] replaces each tilde by the two
    bytes CR LF. *)
Fixpoint crlf (s : string) : string :=
  match s with
  | "" => ""
  | String c s' =>
      if decide (c = "~"%char) then String CR (String LF (crlf s'))
      else String c (crlf s')
  end.

(** Two pipelined requests in one read; a batch with a malformed
    candidate in the middle; a batch whose second request asks to close. *)
Definition pipelined : string :=
  crlf "GET /a HTTP/1.1~Host: h~~GET /b HTTP/1.1~Host: h~~".

Definition bad_in_the_middle : string :=
  crlf "GET /a HTTP/1.1~Host: h~~BAD~~GET /b HTTP/1.1~Host: h~~".

Definition close_in_the_middle : string :=
  crlf ("GET /a HTTP/1.1~Host: h~~"
        +:+ "GET /b HTTP/1.1~Host: h~Connection: close~~"
        +:+ "GET /a HTTP/1.1~Host: h~~").

Definition res_500 : Response :=
  {| StatusCode := 500; ResProto := "HTTP/1.1"; ResHeader := ∅;
     ResRequest := None; FilePath := "" |}.

Definition res_two_headers : Response :=
  {| StatusCode := 400; ResProto := "HTTP/1.1";
     ResHeader := <["Date" := "d"]> {[ "Connection" := "close" ]};
     ResRequest := None; FilePath := "" |}.

(** ** Notions used to state further properties *)

(** Whether the byte [c] occurs in [s]. *)
Fixpoint has_byte (c : ascii) (s : string) : bool :=
  match s with
  | "" => false
  | String b s' => bool_decide (b = c) || has_byte c s'
  end.

(** The text of a GET request for [url] with a [Host] header and, when
    [close] is set, a [Connection: close] header: [request_head] ends
    after the last header line, [request_text] adds the empty line. *)
Definition request_head (url host : string) (close : bool) : string :=
  "GET " +:+ url +:+ " HTTP/1.1" +:+ CRLF
  +:+ "Host: " +:+ host +:+ CRLF
  +:+ (if close then "Connection: close" +:+ CRLF else "").

Definition request_text (url host : string) (close : bool) : string :=
  request_head url host close +:+ CRLF.

(** The request such a text stands for. *)
Definition request_of (url host : string) (close : bool) : Request :=
  {| Method := "GET"; URL := url; Proto := "HTTP/1.1"; Header := ∅;
     Host := host; Close := close |}.

(** A header name is taken for [Host] or [Connection] when its lower-case
    form is ["host"] or ["connection"]. *)
Definition promoted_key (env : Env) (k : string) : Prop :=
  strings_ToLower env k = "host" ∨ strings_ToLower env k = "connection".

(** What every key of the header map of a parsed request satisfies. *)
Definition header_key_ok (env : Env) (k : string) : Prop :=
  ¬ promoted_key env k ∧ k ≠ "" ∧ has_byte ":" k = false.

(** One of the three status lines of the protocol. *)
Definition known_statusLine (line : string) : Prop :=
  line = "HTTP/1.1 200 OK" +:+ CRLF
  ∨ line = "HTTP/1.1 400 Bad Request" +:+ CRLF
  ∨ line = "HTTP/1.1 404 Not Found" +:+ CRLF.

(** The body [WriteBody] sends for a response: the content of the file,
    nothing when there is no path or the file does not open. *)
Definition body_of (env : Env) (res : Response) : string :=
  if decide (FilePath res = "") then ""
  else default "" (os_Open env (FilePath res)).

(** A connection has said nothing wrong yet: no 400 among the responses
    [l]. *)
Definition no_BadRequest (l : list Response) : Prop :=
  Forall (λ res, StatusCode res ≠ 400) l.

(** The invariant behind "a 400 is the last thing a connection says":
    an open connection has sent no 400, a closed one at most one, as its
    last response. *)
Definition BadRequest_only_last (st : Conn) : Prop :=
  no_BadRequest (sent st)
  ∨ (closed st = true
     ∧ ∃ l res, sent st = l ++ [res] ∧ no_BadRequest l).

(** ** The bytes on the connection *)

(** [HandleConnection] with [conn] as the [io.Writer] that
    [res.Write(conn)] writes to: the state of the loop paired with the
    connection.  Each definition follows its namesake above and calls
    [Response_Write] where the source calls [res.Write(conn)]; the error
    that [Write] returns is dropped, as in the source. *)
Definition reply_BadRequest_conn (env : Env) (x : Conn * Writer)
  : Conn * Writer :=
  let '(res, clk) := HandleBadRequest env Response_zero (clock x.1) in
  ({| remaining := remaining x.1; sent := sent x.1 ++ [res]; closed := true;
      clock := clk |},
   (Response_Write env res x.2).1).

Definition serve_conn (env : Env) (s : Server) (x : Conn * Writer)
    (request : string) : Conn * Writer :=
  match ReadRequest env (request +:+ CRLF) with
  | (_, _, Some readErr, _) => reply_BadRequest_conn env x
  | (Some req, _, None, _) =>
      let '(res, clk) := reply_GoodRequest env s req (clock x.1) in
      ({| remaining := remaining x.1; sent := sent x.1 ++ [res];
          closed := Close req; clock := clk |},
       (Response_Write env res x.2).1)
  | (None, _, None, _) => (close_conn x.1, x.2)
  end.

Fixpoint serveAll_conn (env : Env) (s : Server) (x : Conn * Writer)
    (requests : list string) : Conn * Writer :=
  match requests with
  | [] => x
  | request :: rest =>
      let x' := serve_conn env s x request in
      if closed x'.1 then x' else serveAll_conn env s x' rest
  end.

Definition iteration_conn (env : Env) (s : Server) (x : Conn * Writer)
    (ev : Event) : Conn * Writer :=
  let st := x.1 in
  if closed st then x
  else
    match ev with
    | SetReadDeadlineFails => (close_conn st, x.2)
    | ReadReturns data err =>
        let size := len data in
        let failed := bool_decide (err ≠ None) || (size =? 0) in
        if failed && bool_decide (remaining st ≠ "")
        then reply_BadRequest_conn env x
        else if failed && bool_decide (err = Some io_EOF)
        then (close_conn st, x.2)
        else if is_Timeout err then (close_conn st, x.2)
        else
          let remaining' := remaining st +:+ data in
          if strings_Contains remaining' requestEndDelim then
            let index := strings_LastIndex remaining' requestEndDelim in
            let requests :=
              strings_Split (str_take (Z.to_nat index) remaining')
                            requestEndDelim in
            let x' :=
              serveAll_conn env s
                ({| remaining := remaining'; sent := sent st;
                    closed := false; clock := clock st |}, x.2) requests in
            if closed x'.1 then x'
            else ({| remaining := str_drop (Z.to_nat (index + 4)) remaining';
                     sent := sent x'.1; closed := false;
                     clock := clock x'.1 |}, x'.2)
          else ({| remaining := remaining'; sent := sent st;
                   closed := false; clock := clock st |}, x.2)
    end.

(** [HandleConnection(conn)] run against a script of events. *)
Definition HandleConnection_conn (env : Env) (s : Server) (conn : Writer)
    (evs : list Event) : Conn * Writer :=
  foldl (iteration_conn env s) (Conn_init, conn) evs.

(** The entries of a header map in ascending key order. *)
Definition sorted_entries (h : gmap string string) : list (string * string) :=
  (λ k, (k, map_index h k)) <$> sort_Strings (range_keys h).

(** One response as the specification puts it on the wire: the status
    line, the header entries in ascending key order with the blank line,
    the body. *)
Definition response_bytes (env : Env) (res : Response) : string :=
  statusLine res +:+ headerBlock (sorted_entries (ResHeader res))
  +:+ body_of env res.

(** Responses one after the other. *)
Fixpoint responses_bytes (env : Env) (l : list Response) : string :=
  match l with
  | [] => ""
  | res :: rest => response_bytes env res +:+ responses_bytes env rest
  end.

(** A candidate [r] followed by the terminator is one complete request
    when that terminator is the first one in it. *)
Definition one_request (r : string) : Prop :=
  strings_Index (r +:+ requestEndDelim) requestEndDelim = len r.

(** * Properties *)

(** ** The primitives on sample inputs *)

Example strings_Split_ex :
  strings_Split "a  b c" " " = ["a"; ""; "b"; "c"].
Proof. reflexivity. Qed.

Example strings_SplitN_ex :
  strings_SplitN "a  b c d" " " 3 = ["a"; ""; "b c d"].
Proof. reflexivity. Qed.

Example strings_LastIndex_ex :
  strings_LastIndex "xaaa" "aa" = 2 /\ strings_LastIndex "xaaa" "b" = -1
  /\ strings_Index "xaaa" "aa" = 1.
Proof. repeat split; reflexivity. Qed.

Example itoa_ex : itoa 200 = "200" /\ itoa 0 = "0" /\ itoa (-7) = "-7".
Proof. repeat split; reflexivity. Qed.

Example regexp_Split_ex :
  regexp_colon_space_Split2 "Host:  a:b" = ["Host"; "a:b"]
  /\ regexp_colon_space_Split2 "nocolon" = ["nocolon"]
  /\ regexp_colon_space_Split2 ":" = [""; ""].
Proof. repeat split; reflexivity. Qed.

(** ** The byte-string primitives *)

Section strings_facts.
Implicit Types s t p sep : string.

Lemma append_cons c s t : String c s +:+ t = String c (s +:+ t).
Proof. reflexivity. Qed.

Lemma append_nil_r s : s +:+ "" = s.
Proof. induction s as [|c s IH]; [done|]. by rewrite append_cons, IH. Qed.

Lemma append_assoc s t u : (s +:+ t) +:+ u = s +:+ t +:+ u.
Proof.
  induction s as [|c s IH]; [done|]. by rewrite !append_cons, IH.
Qed.

Lemma length_append s t :
  String.length (s +:+ t) = (String.length s + String.length t)%nat.
Proof.
  induction s as [|c s IH]; [done|]. rewrite append_cons. simpl. by rewrite IH.
Qed.

Lemma len_cons c s : len (String c s) = len s + 1.
Proof. unfold len. simpl String.length. lia. Qed.

Lemma str_take_drop n s : str_take n s +:+ str_drop n s = s.
Proof.
  revert s. induction n as [|n IH]; intros [|c s]; simpl; try done.
  by rewrite append_cons, IH.
Qed.

Lemma str_drop_drop n m s : str_drop n (str_drop m s) = str_drop (m + n) s.
Proof.
  revert s. induction m as [|m IH]; intros s; [done|].
  destruct s as [|c s]; simpl; [by destruct n|]. apply IH.
Qed.

Lemma str_drop_length n s :
  String.length (str_drop n s) = (String.length s - n)%nat.
Proof.
  revert s. induction n as [|n IH]; intros [|c s]; simpl; done.
Qed.

Lemma str_take_app s t : str_take (String.length s) (s +:+ t) = s.
Proof.
  induction s as [|c s IH]; [by destruct t|].
  rewrite append_cons. simpl. by rewrite IH.
Qed.

Lemma str_drop_app s t : str_drop (String.length s) (s +:+ t) = t.
Proof.
  induction s as [|c s IH]; [by destruct t|]. by rewrite append_cons.
Qed.

Lemma HasPrefix_app p t : strings_HasPrefix (p +:+ t) p = true.
Proof.
  induction p as [|c p IH]; [by destruct t|].
  rewrite append_cons. simpl. by rewrite decide_True.
Qed.

Lemma HasPrefix_inv s p :
  strings_HasPrefix s p = true → s = p +:+ str_drop (String.length p) s.
Proof.
  revert s. induction p as [|a p IH]; intros s H; [by destruct s|].
  destruct s as [|b s]; simpl in *; [done|].
  case_decide; [subst|done]. rewrite append_cons. f_equal. by apply IH.
Qed.

Lemma Index_nil sep :
  strings_Index "" sep = if strings_HasPrefix "" sep then 0 else -1.
Proof. reflexivity. Qed.

Lemma Index_cons c s sep :
  strings_Index (String c s) sep =
  if strings_HasPrefix (String c s) sep then 0
  else if strings_Index s sep <? 0 then -1 else strings_Index s sep + 1.
Proof. reflexivity. Qed.

Lemma LastIndex_nil sep :
  strings_LastIndex "" sep = if strings_HasPrefix "" sep then 0 else -1.
Proof. reflexivity. Qed.

Lemma LastIndex_cons c s sep :
  strings_LastIndex (String c s) sep =
  if 0 <=? strings_LastIndex s sep then strings_LastIndex s sep + 1
  else if strings_HasPrefix (String c s) sep then 0 else -1.
Proof. reflexivity. Qed.

Lemma Index_bounds s sep : -1 ≤ strings_Index s sep ≤ len s.
Proof.
  induction s as [|c s IH].
  - rewrite Index_nil. unfold len. simpl String.length.
    destruct (strings_HasPrefix "" sep); lia.
  - rewrite Index_cons, len_cons.
    destruct (strings_HasPrefix (String c s) sep); [lia|].
    destruct (Z.ltb_spec (strings_Index s sep) 0); lia.
Qed.

(** [Index] points at an occurrence of [sep]. *)
Lemma Index_found s sep :
  0 ≤ strings_Index s sep →
  strings_HasPrefix (str_drop (Z.to_nat (strings_Index s sep)) s) sep = true.
Proof.
  induction s as [|c s IH].
  - rewrite Index_nil. destruct (strings_HasPrefix "" sep) eqn:E; [done|lia].
  - rewrite Index_cons.
    destruct (strings_HasPrefix (String c s) sep) eqn:E; [done|].
    destruct (Z.ltb_spec (strings_Index s sep) 0) as [|Hr]; [lia|].
    intros _. replace (Z.to_nat (strings_Index s sep + 1))
      with (S (Z.to_nat (strings_Index s sep))) by lia.
    simpl str_drop. by apply IH.
Qed.

(** No occurrence of [sep] starts before [Index]. *)
Lemma Index_first s sep (j : nat) :
  (Z.of_nat j < strings_Index s sep ∨ strings_Index s sep < 0) →
  (j ≤ String.length s)%nat →
  strings_HasPrefix (str_drop j s) sep = false.
Proof.
  revert j. induction s as [|c s IH]; intros j.
  - rewrite Index_nil. destruct (strings_HasPrefix "" sep) eqn:E; [lia|].
    intros _ ?. by destruct j.
  - rewrite Index_cons.
    destruct (strings_HasPrefix (String c s) sep) eqn:E; [lia|].
    intros Hj Hlen. destruct j as [|j]; [done|]. simpl str_drop.
    simpl in Hlen. apply IH; [|lia].
    destruct (Z.ltb_spec (strings_Index s sep) 0); lia.
Qed.

Lemma Index_cut s sep :
  0 ≤ strings_Index s sep →
  s = str_take (Z.to_nat (strings_Index s sep)) s +:+ sep
      +:+ str_drop (Z.to_nat (strings_Index s sep + len sep)) s.
Proof.
  intros H. pose proof (Index_found s sep H) as Hp.
  apply HasPrefix_inv in Hp. rewrite str_drop_drop in Hp.
  rewrite <-(str_take_drop (Z.to_nat (strings_Index s sep)) s) at 1.
  f_equal. rewrite Hp at 1. do 2 f_equal. unfold len. lia.
Qed.

Lemma LastIndex_bounds s sep : -1 ≤ strings_LastIndex s sep ≤ len s.
Proof.
  induction s as [|c s IH].
  - rewrite LastIndex_nil. unfold len. simpl String.length.
    destruct (strings_HasPrefix "" sep); lia.
  - rewrite LastIndex_cons, len_cons.
    destruct (Z.leb_spec 0 (strings_LastIndex s sep)); [lia|].
    destruct (strings_HasPrefix (String c s) sep); lia.
Qed.

(** [LastIndex] points at an occurrence of [sep]... *)
Lemma LastIndex_found s sep :
  0 ≤ strings_LastIndex s sep →
  strings_HasPrefix (str_drop (Z.to_nat (strings_LastIndex s sep)) s) sep
  = true.
Proof.
  induction s as [|c s IH].
  - rewrite LastIndex_nil.
    destruct (strings_HasPrefix "" sep) eqn:E; [done|lia].
  - rewrite LastIndex_cons.
    destruct (Z.leb_spec 0 (strings_LastIndex s sep)) as [Hr|Hr].
    + intros _. replace (Z.to_nat (strings_LastIndex s sep + 1))
        with (S (Z.to_nat (strings_LastIndex s sep))) by lia.
      simpl str_drop. by apply IH.
    + destruct (strings_HasPrefix (String c s) sep) eqn:E; [done|lia].
Qed.

(** ... and no occurrence starts after it. *)
Lemma LastIndex_last s sep (j : nat) :
  strings_LastIndex s sep < Z.of_nat j → (j ≤ String.length s)%nat →
  strings_HasPrefix (str_drop j s) sep = false.
Proof.
  revert j. induction s as [|c s IH]; intros j.
  - rewrite LastIndex_nil.
    destruct (strings_HasPrefix "" sep) eqn:E; intros ? Hl.
    + simpl in Hl. lia.
    + by destruct j.
  - rewrite LastIndex_cons. simpl String.length.
    destruct (Z.leb_spec 0 (strings_LastIndex s sep)) as [Hr|Hr].
    + intros Hj Hlen. destruct j as [|j]; [lia|]. simpl str_drop.
      apply IH; lia.
    + destruct (strings_HasPrefix (String c s) sep) eqn:E;
        intros Hj Hlen.
      * destruct j as [|j]; [lia|]. simpl str_drop. apply IH; lia.
      * destruct j as [|j]; [done|]. simpl str_drop. apply IH; lia.
Qed.

Lemma Index_LastIndex s sep :
  0 ≤ strings_Index s sep → 0 ≤ strings_LastIndex s sep.
Proof.
  induction s as [|c s IH].
  - rewrite Index_nil, LastIndex_nil. by destruct (strings_HasPrefix "" sep).
  - rewrite Index_cons, LastIndex_cons.
    destruct (Z.leb_spec 0 (strings_LastIndex s sep)) as [Hr|Hr]; [lia|].
    destruct (strings_HasPrefix (String c s) sep); [done|].
    destruct (Z.ltb_spec (strings_Index s sep) 0); lia.
Qed.

Lemma Contains_LastIndex s sep :
  strings_Contains s sep = true → 0 ≤ strings_LastIndex s sep.
Proof.
  unfold strings_Contains. intros H%Z.leb_le. by apply Index_LastIndex.
Qed.

Lemma LastIndex_cut s sep :
  0 ≤ strings_LastIndex s sep →
  s = str_take (Z.to_nat (strings_LastIndex s sep)) s +:+ sep
      +:+ str_drop (Z.to_nat (strings_LastIndex s sep + len sep)) s.
Proof.
  intros H. pose proof (LastIndex_found s sep H) as Hp.
  apply HasPrefix_inv in Hp. rewrite str_drop_drop in Hp.
  rewrite <-(str_take_drop (Z.to_nat (strings_LastIndex s sep)) s) at 1.
  f_equal. rewrite Hp at 1. do 2 f_equal. unfold len. lia.
Qed.
End strings_facts.

(** ** Splitting *)

Section split_facts.
Implicit Types s sep : string.

Lemma genSplit_S n s sep :
  genSplit (S n) s sep =
  if strings_Index s sep <? 0 then [s]
  else str_take (Z.to_nat (strings_Index s sep)) s
         :: genSplit n
              (str_drop (Z.to_nat (strings_Index s sep + len sep)) s) sep.
Proof. reflexivity. Qed.

Lemma genSplit_not_nil n s sep : genSplit n s sep ≠ [].
Proof.
  destruct n; [done|]. rewrite genSplit_S.
  by destruct (strings_Index s sep <? 0).
Qed.

Lemma Join_cons x l sep :
  l ≠ [] → strings_Join (x :: l) sep = x +:+ sep +:+ strings_Join l sep.
Proof. by destruct l. Qed.

(** Joining the pieces with the separator gives the string back. *)
Lemma Join_genSplit n s sep : strings_Join (genSplit n s sep) sep = s.
Proof.
  revert s. induction n as [|n IH]; intros s; [done|].
  rewrite genSplit_S.
  destruct (Z.ltb_spec (strings_Index s sep) 0) as [|Hm]; [done|].
  rewrite Join_cons by apply genSplit_not_nil.
  rewrite IH. symmetry. by apply Index_cut.
Qed.

Lemma Index_empty sep : sep ≠ "" → strings_Index "" sep = -1.
Proof. by destruct sep. Qed.

Lemma len_pos sep : sep ≠ "" → 0 < len sep.
Proof. destruct sep; [done|]. rewrite len_cons. unfold len. lia. Qed.

(** Once the bound covers the length of the string it plays no part. *)
Lemma genSplit_enough n m s sep :
  sep ≠ "" → (String.length s ≤ n)%nat → (String.length s ≤ m)%nat →
  genSplit n s sep = genSplit m s sep.
Proof.
  intros Hsep. revert m s.
  assert (Hnil : ∀ k, genSplit k "" sep = [""]).
  { intros [|k]; [done|]. rewrite genSplit_S, Index_empty; done. }
  induction n as [|n IH]; intros m s Hn Hm.
  { destruct s; [|simpl in Hn; lia]. by rewrite !Hnil. }
  destruct m as [|m].
  { destruct s; [|simpl in Hm; lia]. by rewrite !Hnil. }
  rewrite !genSplit_S.
  destruct (Z.ltb_spec (strings_Index s sep) 0) as [|Hi]; [done|].
  f_equal. pose proof (len_pos sep Hsep). unfold len in *.
  apply IH; rewrite str_drop_length; lia.
Qed.

Lemma Split_no_sep s sep :
  strings_Index s sep < 0 → strings_Split s sep = [s].
Proof.
  intros H. unfold strings_Split. destruct (String.length s); [done|].
  rewrite genSplit_S. by destruct (Z.ltb_spec (strings_Index s sep) 0); [|lia].
Qed.

Lemma Split_cut s sep :
  sep ≠ "" → 0 ≤ strings_Index s sep →
  strings_Split s sep =
  str_take (Z.to_nat (strings_Index s sep)) s
    :: strings_Split
         (str_drop (Z.to_nat (strings_Index s sep + len sep)) s) sep.
Proof.
  intros Hsep H. unfold strings_Split.
  destruct (String.length s) as [|n] eqn:Hlen.
  { destruct s; [|done]. rewrite Index_empty in H; [lia|done]. }
  rewrite genSplit_S.
  destruct (Z.ltb_spec (strings_Index s sep) 0); [lia|]. f_equal.
  pose proof (len_pos sep Hsep). unfold len in *.
  apply genSplit_enough; [done|..]; rewrite ?str_drop_length; lia.
Qed.

(** [SplitN] in terms of [Split]: the first [n] pieces, the others being
    left joined in the last one. *)
Lemma genSplit_Split n s sep :
  sep ≠ "" →
  genSplit n s sep =
  if (length (strings_Split s sep) <=? S n)%nat then strings_Split s sep
  else take n (strings_Split s sep)
         ++ [strings_Join (drop n (strings_Split s sep)) sep].
Proof.
  intros Hsep. revert s. induction n as [|n IH]; intros s.
  - pose proof (genSplit_not_nil (String.length s) s sep) as Hne.
    pose proof (Join_genSplit (String.length s) s sep) as HJ.
    fold (strings_Split s sep) in Hne, HJ.
    destruct (strings_Split s sep) as [|x [|y l]]; [done|..].
    + simpl in *. by subst.
    + rewrite drop_0, HJ. done.
  - rewrite genSplit_S.
    destruct (Z.ltb_spec (strings_Index s sep) 0) as [Hi|Hi].
    + by rewrite Split_no_sep.
    + rewrite Split_cut by done. rewrite IH. simpl length.
      destruct (Nat.leb_spec
                  (length (strings_Split
                     (str_drop (Z.to_nat (strings_Index s sep + len sep)) s)
                     sep)) (S n)) as [Hl|Hl].
      * destruct (Nat.leb_spec (S (length (strings_Split
                     (str_drop (Z.to_nat (strings_Index s sep + len sep)) s)
                     sep))) (S (S n))); [done|lia].
      * destruct (Nat.leb_spec (S (length (strings_Split
                     (str_drop (Z.to_nat (strings_Index s sep + len sep)) s)
                     sep))) (S (S n))); [lia|done].
Qed.
End split_facts.

(** ** The request line *)

(** The three fields of [SplitN(line, " ", 3)] in terms of the
    space-separated fields of the line. *)
Lemma SplitN3_fields (line : string) :
  strings_SplitN line " " 3
  = match strings_Split line " " with
    | m :: t :: v :: more => [m; t; strings_Join (v :: more) " "]
    | fields => fields
    end.
Proof.
  unfold strings_SplitN. simpl Nat.pred.
  rewrite (genSplit_Split 2 line " ") by done.
  destruct (strings_Split line " ") as [|m [|t [|v [|x more]]]]; done.
Qed.

(** C5 (as stated, refuted): a line of four space-separated fields is not
    rejected by [ParseRequestInitLine]; the third field takes the rest of
    the line. *)
Lemma ParseRequestInitLine_accepts_four_fields :
  strings_Split "GET / HTTP/1.1 extra" " " = ["GET"; "/"; "HTTP/1.1"; "extra"]
  ∧ ParseRequestInitLine Request_new "GET / HTTP/1.1 extra"
    = ({| Method := "GET"; URL := "/"; Proto := "HTTP/1.1 extra";
          Header := ∅; Host := ""; Close := false |}, None).
Proof. split; vm_compute; reflexivity. Qed.

(** C5 (amended): [ParseRequestInitLine] cuts the line at its first two
    single spaces.  A line with fewer than three space-separated fields is
    rejected and leaves the request as it was; a line with three or more
    is accepted, with the first field as method, the second as target and
    everything after the second space (further spaces included) as
    version. *)
Theorem ParseRequestInitLine_fields (r : Request) (line : string) :
  match strings_Split line " " with
  | m :: t :: v :: more =>
      ParseRequestInitLine r line
      = ({| Method := m; URL := t; Proto := strings_Join (v :: more) " ";
            Header := Header r; Host := Host r; Close := Close r |}, None)
  | _ => ∃ err, ParseRequestInitLine r line = (r, Some err)
  end.
Proof.
  unfold ParseRequestInitLine. rewrite SplitN3_fields.
  destruct (strings_Split line " ") as [|m [|t [|v more]]]; eauto.
Qed.

(** ** Reading a request *)

Section request_facts.
Context (env : Env).
Implicit Types (br : Reader) (req : Request).

Lemma HasPrefix_length s p :
  strings_HasPrefix s p = true → (String.length p ≤ String.length s)%nat.
Proof.
  intros H%HasPrefix_inv. rewrite H, length_append. lia.
Qed.

(** A line read takes its bytes and the CRLF off the reader. *)
Lemma ReadLine_consumes br line br' :
  ReadLine br = (inl line, br') →
  br = line +:+ CRLF +:+ br'.
Proof.
  unfold ReadLine.
  destruct (Z.ltb_spec (strings_Index br CRLF) 0) as [|Hm]; [done|].
  intros [= <- <-]. by apply (Index_cut br CRLF).
Qed.

Lemma ReadLine_shrinks br line br' :
  ReadLine br = (inl line, br') →
  (String.length br' < String.length br)%nat.
Proof.
  intros H%ReadLine_consumes. rewrite H, !length_append. simpl. lia.
Qed.

(** The bound of the header loop is never reached. *)
Lemma readHeaders_fuel fuel fuel' req br :
  (String.length br < fuel)%nat → (String.length br < fuel')%nat →
  readHeaders fuel env req br = readHeaders fuel' env req br.
Proof.
  revert fuel' req br. induction fuel as [|fuel IH];
    intros fuel' req br Hf Hf'; [lia|].
  destruct fuel' as [|fuel']; [lia|]. simpl.
  destruct (ReadLine br) as [[line|err] br1] eqn:HR; [|done].
  case_decide; [done|].
  destruct (ParseRequestHeader env req line) as [req1 [e|]]; [done|].
  apply ReadLine_shrinks in HR. apply IH; lia.
Qed.

(** The header loop ends, and only at an empty line, a failed read or a
    header that does not parse. *)
Lemma readHeaders_HeadersEnd fuel req br :
  (String.length br < fuel)%nat →
  ∃ stop req' br',
    HeadersEnd env req br stop req' br'
    ∧ readHeaders fuel env req br
      = (req', match stop with StopHeaderError e => Some e | _ => None end,
         br').
Proof.
  revert req br. induction fuel as [|fuel IH]; intros req br Hf; [lia|].
  simpl. destruct (ReadLine br) as [[line|err] br1] eqn:HR.
  - case_decide as Hl.
    + subst line. exists StopEmptyLine, req, br1. split; [|done].
      by constructor.
    + destruct (ParseRequestHeader env req line) as [req1 [e|]] eqn:HP.
      * exists (StopHeaderError e), req1, br1. split; [|done].
        by econstructor.
      * pose proof (ReadLine_shrinks _ _ _ HR).
        destruct (IH req1 br1) as (stop & req' & br' & HE & Heq); [lia|].
        exists stop, req', br'. split; [|done].
        by eapply HeadersEnd_next.
  - exists (StopReadFailure err), req, br1. split; [|done].
    by constructor.
Qed.

Lemma ValidateRequest_Valid req : ValidateRequest req = None ↔ Valid req.
Proof.
  unfold ValidateRequest, Valid.
  destruct (decide (Method req ≠ "GET")) as [Hm|Hm]; [split; [done|tauto]|].
  apply dec_stable in Hm.
  destruct (bool_decide (URL req = "")) eqn:E1; simpl.
  { apply bool_decide_eq_true in E1. split; [done|tauto]. }
  apply bool_decide_eq_false in E1.
  destruct (bool_decide (first_byte (URL req) ≠ Some "/"%char)) eqn:E2.
  { apply bool_decide_eq_true in E2. split; [done|tauto]. }
  apply bool_decide_eq_false in E2. apply dec_stable in E2.
  destruct (decide (Proto req ≠ "HTTP/1.1")) as [Hp|Hp];
    [split; [done|tauto]|].
  apply dec_stable in Hp.
  destruct (decide (Host req = "")); [split; [done|tauto]|].
  tauto.
Qed.

(** A nil request comes with an error and a request without one. *)
Lemma ReadRequest_shape br :
  match ReadRequest env br with
  | (Some _, recv, err, _) => recv = true ∧ err = None
  | (None, recv, err, _) => recv = false ∧ is_Some err
  end.
Proof.
  unfold ReadRequest.
  destruct (ReadLine br) as [[line|e] br1]; [|eauto].
  destruct (ParseRequestInitLine Request_new line) as [req1 [e|]]; [eauto|].
  destruct (readHeaders _ env req1 br1) as [[req2 [e|]] br2]; [eauto|].
  destruct (ValidateRequest req2); eauto.
Qed.
End request_facts.

(** C4: [ReadRequest] returns a request exactly when the request as parsed
    passes the four validation rules (method [GET], target non-empty and
    starting with a slash, version [HTTP/1.1], host non-empty once the
    headers are parsed); when a rule fails it returns an error and a nil
    request. *)
Theorem ReadRequest_validation (env : Env) (br : Reader) :
  match ReadRequest env br with
  | (Some req, recv, err, _) =>
      parsed env br = Some req ∧ Valid req ∧ recv = true ∧ err = None
  | (None, _, err, _) =>
      is_Some err ∧ ∀ r, parsed env br = Some r → ¬ Valid r
  end.
Proof.
  unfold ReadRequest, parsed.
  destruct (ReadLine br) as [[line|e] br1]; [|by eauto].
  destruct (ParseRequestInitLine Request_new line) as [req1 [e|]];
    [by eauto|].
  destruct (readHeaders _ env req1 br1) as [[req2 [e|]] br2]; [by eauto|].
  destruct (ValidateRequest req2) as [e|] eqn:HV.
  - split; [eauto|]. intros r [= <-] HValid%ValidateRequest_Valid.
    congruence.
  - by apply ValidateRequest_Valid in HV.
Qed.

(** C2 (code defect): the stream [BAD\r\n] is read to its end (the reader
    left behind is empty) and refused, and the flag [bytesReceived] is
    [false] although five bytes were received. *)
Theorem ReadRequest_flag_false_after_bytes (env : Env) :
  ReadRequest env (crlf "BAD~")
  = (None, false,
     Some (fmt_Errorf "Could not parse the request line got fields: [BAD]"),
     "").
Proof. reflexivity. Qed.

(** Whatever was read, a failing [ReadRequest] reports [false]. *)
Lemma ReadRequest_failure_flag (env : Env) (br : Reader) recv err br' :
  ReadRequest env br = (None, recv, err, br') → recv = false.
Proof.
  intros H. pose proof (ReadRequest_shape env br) as Hs.
  rewrite H in Hs. tauto.
Qed.

(** C6 (code defect): the stream ends after the [Host] line, before the
    empty line that ends the header block.  The request line and the
    header line are read, the read of the next header line fails with
    [io.EOF], and [ReadRequest] nevertheless returns a request and no
    error: the failed read ends the header loop as an empty line does,
    and its error is dropped. *)
Theorem ReadRequest_succeeds_after_header_read_failure (env : Env) :
  strings_Contains (crlf "GET / HTTP/1.1~Host: h~") (crlf "~~") = false
  ∧ ReadLine (crlf "GET / HTTP/1.1~Host: h~")
    = (inl "GET / HTTP/1.1", crlf "Host: h~")
  ∧ ReadLine (crlf "Host: h~") = (inl "Host: h", "")
  ∧ ReadLine "" = (inr io_EOF, "")
  ∧ ReadRequest env (crlf "GET / HTTP/1.1~Host: h~")
    = (Some {| Method := "GET"; URL := "/"; Proto := "HTTP/1.1";
               Header := ∅; Host := "h"; Close := false |},
       true, None, "").
Proof. repeat split; vm_compute; reflexivity. Qed.

(** What the header loop does in general: once the request line is
    parsed, the loop ends, and only at the first empty line, at a header
    that does not parse, or at a failed read.  A header that does not
    parse fails the attempt with its error and a nil request.  After a
    failed read the code goes on as after an empty line: it validates the
    request parsed so far and returns it when it is valid, else the
    validation error and a nil request. *)
Lemma ReadRequest_header_loop (env : Env) (br : Reader) line br1 req1 :
  ReadLine br = (inl line, br1) →
  ParseRequestInitLine Request_new line = (req1, None) →
  ∃ stop req2 br2,
    HeadersEnd env req1 br1 stop req2 br2
    ∧ ReadRequest env br
      = match stop with
        | StopHeaderError err => (None, false, Some err, br2)
        | StopEmptyLine | StopReadFailure _ =>
            match ValidateRequest req2 with
            | Some err => (None, false, Some err, br2)
            | None => (Some req2, true, None, br2)
            end
        end.
Proof.
  intros HR HP.
  destruct (readHeaders_HeadersEnd env (S (String.length br1)) req1 br1)
    as (stop & req2 & br2 & HE & Heq); [lia|].
  exists stop, req2, br2. split; [done|].
  unfold ReadRequest. rewrite HR, HP, Heq. by destruct stop.
Qed.

Lemma ReadRequest_header_loop_witness :
  ∃ stop req2 br2,
    HeadersEnd test_env
      {| Method := "GET"; URL := "/"; Proto := "HTTP/1.1";
         Header := ∅; Host := ""; Close := false |}
      (crlf "Host: h~") stop req2 br2
    ∧ ReadRequest test_env (crlf "GET / HTTP/1.1~Host: h~")
      = match stop with
        | StopHeaderError err => (None, false, Some err, br2)
        | StopEmptyLine | StopReadFailure _ =>
            match ValidateRequest req2 with
            | Some err => (None, false, Some err, br2)
            | None => (Some req2, true, None, br2)
            end
        end.
Proof.
  apply (ReadRequest_header_loop test_env (crlf "GET / HTTP/1.1~Host: h~")
           "GET / HTTP/1.1"); reflexivity.
Defined.

(** ** Surplus fields in the request line *)

Section surplus_fields.
Context (env : Env).

Lemma Contains_middle (a sep b : string) :
  strings_Contains (a +:+ sep +:+ b) sep = true.
Proof.
  unfold strings_Contains. apply Z.leb_le.
  destruct (Z.lt_ge_cases (strings_Index (a +:+ sep +:+ b) sep) 0) as [Hneg|];
    [|done].
  pose proof (Index_first (a +:+ sep +:+ b) sep (String.length a)
                (or_intror Hneg)) as Hf.
  rewrite str_drop_app, HasPrefix_app in Hf.
  rewrite length_append in Hf. discriminate Hf. lia.
Qed.

Lemma ParseRequestHeader_Proto (r : Request) line :
  Proto (ParseRequestHeader env r line).1 = Proto r.
Proof.
  unfold ParseRequestHeader.
  destruct (regexp_colon_space_Split2 line) as [|h0 [|h1 [|]]]; try done.
  destruct (_ || _); [done|]. by repeat case_decide.
Qed.

Lemma readHeaders_Proto fuel (r : Request) br :
  Proto (readHeaders fuel env r br).1.1 = Proto r.
Proof.
  revert r br. induction fuel as [|fuel IH]; intros r br; [done|]. simpl.
  destruct (ReadLine br) as [[line|e] br1]; [|done].
  case_decide; [done|].
  pose proof (ParseRequestHeader_Proto r line) as HP.
  destruct (ParseRequestHeader env r line) as [r1 [e|]]; [done|].
  rewrite IH. done.
Qed.

(** X19: a request line with more than three space-separated fields
    passes [ParseRequestInitLine] but not [ReadRequest]: its version holds
    a space and fails validation, if nothing else failed before. *)
Lemma ReadRequest_refuses_surplus_fields br line br1 :
  ReadLine br = (inl line, br1) →
  (3 < length (strings_Split line " "))%nat →
  (ReadRequest env br).1.1.1 = None.
Proof.
  intros HR Hlen. unfold ReadRequest. rewrite HR.
  unfold ParseRequestInitLine. rewrite SplitN3_fields.
  destruct (strings_Split line " ") as [|m [|t [|v [|x more]]]];
    simpl in Hlen; try lia.
  pose proof (readHeaders_Proto (S (String.length br1))
    {| Method := m; URL := t;
       Proto := strings_Join (v :: x :: more) " ";
       Header := Header Request_new; Host := Host Request_new;
       Close := Close Request_new |} br1) as HProto.
  destruct (readHeaders _ env _ br1) as [[req2 [e|]] br2]; [done|].
  cbn [fst Proto] in HProto.
  assert (Proto req2 ≠ "HTTP/1.1") as Hne.
  { rewrite HProto, Join_cons by done. intros Heq.
    pose proof (Contains_middle v " " (strings_Join (x :: more) " ")) as Hc.
    rewrite Heq in Hc. vm_compute in Hc. discriminate Hc. }
  unfold ValidateRequest.
  destruct (decide (Method req2 ≠ "GET")); [done|].
  destruct (_ || _); [done|].
  destruct (decide (Proto req2 ≠ "HTTP/1.1")); [done|]. done.
Qed.
End surplus_fields.

(** ** Serializing a response *)

Section response_facts.
Implicit Types (h : gmap string string) (keys : list string).

Lemma mapStatusWithMessage_unknown (code : Z) :
  code ≠ 200 → code ≠ 400 → code ≠ 404 →
  map_index mapStatusWithMessage code = "".
Proof.
  intros. unfold map_index, mapStatusWithMessage.
  by rewrite !lookup_insert_ne, lookup_empty.
Qed.

Lemma foldl_append_foldr {A} (f : A → string) (l : list A) (a z : string) :
  foldl (λ acc k, acc +:+ f k) a l +:+ z
  = a +:+ foldr (λ k acc, f k +:+ acc) z l.
Proof.
  revert a. induction l as [|x l IH]; intros a; simpl; [done|].
  by rewrite IH, append_assoc.
Qed.

Lemma headerBlock_foldr (entries : list (string * string)) :
  headerBlock entries
  = foldr (λ kv acc, (kv.1 +:+ ": " +:+ kv.2 +:+ CRLF) +:+ acc) CRLF entries.
Proof.
  induction entries as [|[k v] l IH]; simpl; [done|].
  by rewrite IH, !append_assoc.
Qed.

Lemma StronglySorted_strict keys :
  StronglySorted String.le keys → NoDup keys →
  StronglySorted string_lt keys.
Proof.
  induction 1 as [|k keys Hs IH Hall]; intros Hnd; [constructor|].
  apply NoDup_cons in Hnd as [Hk Hnd]. constructor; [by apply IH|].
  apply Forall_forall. intros x Hx. split.
  - by eapply Forall_forall in Hall.
  - intros ->. done.
Qed.

Lemma sort_Strings_Permutation keys : sort_Strings keys ≡ₚ keys.
Proof. apply merge_sort_Permutation. Qed.

Lemma sort_Strings_sorted keys : StronglySorted String.le (sort_Strings keys).
Proof. apply StronglySorted_merge_sort; apply _. Qed.

(** The sorted list depends on the keys collected, not on their order. *)
Lemma sort_Strings_order keys keys' :
  keys ≡ₚ keys' → sort_Strings keys = sort_Strings keys'.
Proof.
  intros Hp. apply (StronglySorted_unique String.le);
    [apply sort_Strings_sorted..|].
  by rewrite !sort_Strings_Permutation.
Qed.

Lemma range_keys_entries h :
  (λ k, (k, map_index h k)) <$> range_keys h = map_to_list h.
Proof.
  unfold range_keys. rewrite <-list_fmap_compose.
  rewrite <-(list_fmap_id (map_to_list h)) at 2.
  apply Forall_fmap_ext, Forall_forall. intros [k v] Hkv.
  apply elem_of_map_to_list in Hkv. simpl. unfold map_index.
  by rewrite Hkv.
Qed.

Lemma responseHeader_headerBlock h keys :
  keys ≡ₚ range_keys h →
  responseHeader h keys
  = headerBlock ((λ k, (k, map_index h k)) <$> sort_Strings keys).
Proof.
  intros Hp. unfold responseHeader.
  assert (foldl (λ acc k, acc +:+ (k +:+ ": " +:+ map_index h k +:+ CRLF)) ""
            (sort_Strings keys) +:+ CRLF
          = headerBlock ((λ k, (k, map_index h k)) <$> sort_Strings keys))
    as Hfold.
  { rewrite foldl_append_foldr, headerBlock_foldr, foldr_fmap. done. }
  case_decide as Hsz; [done|].
  rewrite <-Hfold.
  assert (size h = 0%nat) as Hsz' by (destruct (size h); [done|by destruct Hsz]).
  apply map_size_empty_iff in Hsz'. subst h.
  unfold range_keys in Hp. rewrite map_to_list_empty in Hp.
  apply Permutation_nil_r in Hp. by subst keys.
Qed.

Lemma assign_all_list_to_map (ins : list (string * string)) :
  assign_all ins = list_to_map (reverse ins).
Proof.
  unfold assign_all. induction ins as [|kv ins IH] using rev_ind; [done|].
  rewrite foldl_app, reverse_app. simpl. by rewrite IH.
Qed.

(** Assignments of the same entries in any order build the same map. *)
Lemma assign_all_entries h (ins : list (string * string)) :
  ins ≡ₚ map_to_list h → assign_all ins = h.
Proof.
  intros Hp. rewrite assign_all_list_to_map. symmetry.
  apply list_to_map_flip. by rewrite reverse_Permutation.
Qed.
End response_facts.

(** C9: whatever order the [range] loop yields the keys in, the string
    [WriteSortedHeaders] builds is the entries of the header map, each
    once, as [Key: value] CRLF in strictly ascending key order, then one
    blank CRLF line; on a writer that takes the block, the write returns
    no error and the writer receives exactly these bytes.  A response
    whose header map holds the same entries, filled in any order of
    assignments and ranged over in any order, puts the same bytes on the
    writer. *)
Theorem WriteSortedHeaders_sorted (res : Response) (w : Writer)
    (keys : list string) :
  keys ≡ₚ range_keys (ResHeader res) →
  match room w with
  | Some n =>
      (String.length (responseHeader (ResHeader res) keys) ≤ n)%nat
  | None => True
  end →
  ∃ entries : list (string * string),
    entries ≡ₚ map_to_list (ResHeader res)
    ∧ StronglySorted string_lt entries.*1
    ∧ responseHeader (ResHeader res) keys = headerBlock entries
    ∧ (WriteSortedHeaders res w).2 = None
    ∧ written (WriteSortedHeaders res w).1 = written w +:+ headerBlock entries
    ∧ ∀ (res' : Response) (ins : list (string * string))
        (keys' : list string),
        ins ≡ₚ map_to_list (ResHeader res) →
        ResHeader res' = assign_all ins →
        keys' ≡ₚ range_keys (ResHeader res') →
        responseHeader (ResHeader res') keys' = headerBlock entries
        ∧ (WriteSortedHeaders res' w).2 = None
        ∧ written (WriteSortedHeaders res' w).1
          = written w +:+ headerBlock entries.
Proof.
  intros Hp Hroom.
  assert (responseHeader (ResHeader res) (range_keys (ResHeader res))
          = responseHeader (ResHeader res) keys) as Hkeys.
  { rewrite !responseHeader_headerBlock by done.
    by rewrite (sort_Strings_order keys (range_keys (ResHeader res))). }
  assert (WriteSortedHeaders res w
          = ({| written :=
                  written w +:+ responseHeader (ResHeader res) keys;
                room := match room w with
                        | Some n =>
                            Some (n - String.length
                                        (responseHeader (ResHeader res) keys))%nat
                        | None => None
                        end |}, None)) as HW.
  { unfold WriteSortedHeaders, bufio_WriteString_Flush. rewrite Hkeys.
    destruct (room w) as [n|]; [|done].
    by destruct (Nat.leb_spec
                   (String.length (responseHeader (ResHeader res) keys)) n);
      [|lia]. }
  exists ((λ k, (k, map_index (ResHeader res) k)) <$> sort_Strings keys).
  rewrite <-(responseHeader_headerBlock _ keys Hp).
  split; [|split; [|split; [done|split; [by rewrite HW|split;
                                          [by rewrite HW|]]]]].
  - rewrite <-range_keys_entries. apply fmap_Permutation.
    by rewrite sort_Strings_Permutation.
  - rewrite <-list_fmap_compose, list_fmap_id.
    apply StronglySorted_strict; [apply sort_Strings_sorted|].
    rewrite sort_Strings_Permutation, Hp. apply NoDup_fst_map_to_list.
  - intros res' ins keys' Hins Hres' Hk.
    rewrite (assign_all_entries _ _ Hins) in Hres'.
    assert (WriteSortedHeaders res' w = WriteSortedHeaders res w) as ->
      by (unfold WriteSortedHeaders; by rewrite Hres').
    rewrite Hres' in *. rewrite HW. repeat split.
    rewrite !responseHeader_headerBlock by done.
    rewrite (sort_Strings_order keys' keys); [done|]. by rewrite Hp, Hk.
Qed.

(** C10: a status code outside 200, 400 and 404 has the empty reason
    phrase; on a writer that takes the line, [WriteStatusLine] returns no
    error and writes the version, the code, a space and CRLF. *)
Theorem WriteStatusLine_unknown_code (res : Response) (w : Writer) :
  StatusCode res ≠ 200 → StatusCode res ≠ 400 → StatusCode res ≠ 404 →
  match room w with
  | Some n => (String.length (statusLine res) ≤ n)%nat
  | None => True
  end →
  statusLine res
  = ResProto res +:+ " " +:+ itoa (StatusCode res) +:+ " " +:+ "" +:+ CRLF
  ∧ (WriteStatusLine res w).2 = None
  ∧ written (WriteStatusLine res w).1 = written w +:+ statusLine res.
Proof.
  intros H200 H400 H404 Hroom. split.
  - unfold statusLine. by rewrite mapStatusWithMessage_unknown.
  - unfold WriteStatusLine, bufio_WriteString_Flush.
    destruct (room w) as [n|]; [|done].
    by destruct (Nat.leb_spec (String.length (statusLine res)) n); [|lia].
Qed.

Lemma WriteSortedHeaders_sorted_witness :
  ∃ entries : list (string * string),
    entries ≡ₚ map_to_list (ResHeader res_two_headers)
    ∧ StronglySorted string_lt entries.*1
    ∧ responseHeader (ResHeader res_two_headers) ["Date"; "Connection"]
      = headerBlock entries
    ∧ (WriteSortedHeaders res_two_headers test_conn).2 = None
    ∧ written (WriteSortedHeaders res_two_headers test_conn).1
      = written test_conn +:+ headerBlock entries
    ∧ ∀ (res' : Response) (ins : list (string * string))
        (keys' : list string),
        ins ≡ₚ map_to_list (ResHeader res_two_headers) →
        ResHeader res' = assign_all ins →
        keys' ≡ₚ range_keys (ResHeader res') →
        responseHeader (ResHeader res') keys' = headerBlock entries
        ∧ (WriteSortedHeaders res' test_conn).2 = None
        ∧ written (WriteSortedHeaders res' test_conn).1
          = written test_conn +:+ headerBlock entries.
Proof.
  apply (WriteSortedHeaders_sorted res_two_headers test_conn
           ["Date"; "Connection"]).
  - vm_compute. apply perm_swap.
  - by vm_compute.
Defined.

Example WriteSortedHeaders_ex :
  (WriteSortedHeaders res_two_headers test_conn).1
  = {| written := crlf "Connection: close~Date: d~~"; room := None |}
  ∧ responseHeader (<["Connection" := "close"]> {[ "Date" := "d" ]})
      ["Date"; "Connection"]
    = crlf "Connection: close~Date: d~~".
Proof. split; vm_compute; reflexivity. Qed.

Lemma WriteStatusLine_unknown_code_witness :
  statusLine res_500
  = ResProto res_500 +:+ " " +:+ itoa (StatusCode res_500) +:+ " " +:+ ""
    +:+ CRLF
  ∧ (WriteStatusLine res_500 test_conn).2 = None
  ∧ written (WriteStatusLine res_500 test_conn).1
    = written test_conn +:+ statusLine res_500.
Proof.
  apply (WriteStatusLine_unknown_code res_500 test_conn); done.
Defined.

Example WriteStatusLine_ex :
  WriteStatusLine res_500 test_conn
  = ({| written := crlf "HTTP/1.1 500 ~"; room := None |}, None).
Proof. reflexivity. Qed.

(** ** The connection loop *)

Section connection_facts.
Context (env : Env) (s : Server).
Implicit Types (st : Conn) (requests pre post : list string).

Lemma HandleBadRequest_close res clk :
  BadRequest_close env (HandleBadRequest env res clk).1.
Proof. split; [done|]. simpl. apply lookup_insert_eq. Qed.

Lemma reply_BadRequest_sent st :
  ∃ bad, BadRequest_close env bad
         ∧ sent (reply_BadRequest env st) = sent st ++ [bad]
         ∧ closed (reply_BadRequest env st) = true
         ∧ remaining (reply_BadRequest env st) = remaining st.
Proof.
  exists (HandleBadRequest env Response_zero (clock st)).1.
  split; [apply HandleBadRequest_close|done].
Qed.

(** A candidate that does not parse is answered by the 400 response. *)
Lemma answer_BadRequest clk request :
  parses env request = None →
  BadRequest_close env (answer env s clk request).
Proof.
  unfold parses, answer. intros H.
  destruct (ReadRequest env (request +:+ CRLF)) as [[[[req|] recv] e] br'];
    [done|]. apply HandleBadRequest_close.
Qed.

(** One round of the loop over the candidates: one response, the one
    owed to the candidate, and the connection closed when the candidate
    ends it. *)
Lemma serve_answer st request :
  remaining (serve env s st request) = remaining st
  ∧ sent (serve env s st request)
    = sent st ++ [answer env s (clock st) request]
  ∧ closed (serve env s st request) = closes env request.
Proof.
  pose proof (ReadRequest_shape env (request +:+ CRLF)) as Hs.
  unfold serve, answer, closes, parses.
  destruct (ReadRequest env (request +:+ CRLF))
    as [[[[req|] recv] [e|]] br']; simpl in *.
  - destruct Hs as [_ [=]].
  - unfold reply_GoodRequest.
    by destruct (HandleGoodRequest env s req (clock st)).
  - done.
  - by destruct Hs as [_ [? [=]]].
Qed.

Lemma serveAll_open requests st :
  Forall (λ r, closes env r = false) requests → closed st = false →
  closed (serveAll env s st requests) = false
  ∧ remaining (serveAll env s st requests) = remaining st
  ∧ ∃ outs, sent (serveAll env s st requests) = sent st ++ outs
            ∧ Forall2 (Answers env s) requests outs.
Proof.
  intros Hall. revert st.
  induction Hall as [|r requests Hr _ IH]; intros st Hst; simpl.
  { repeat split; [done|]. exists []. by rewrite app_nil_r. }
  destruct (serve_answer st r) as (Hrem & Hsent & Hcl).
  rewrite Hcl, Hr. destruct (IH (serve env s st r)) as (? & ? & outs & ? & ?);
    [congruence|].
  repeat split; [done|congruence|].
  exists (answer env s (clock st) r :: outs). split.
  - rewrite Hsent, <-app_assoc in *. done.
  - constructor; [by eexists|done].
Qed.

Lemma serveAll_closing pre c post st :
  Forall (λ r, closes env r = false) pre → closes env c = true →
  closed st = false →
  closed (serveAll env s st (pre ++ c :: post)) = true
  ∧ remaining (serveAll env s st (pre ++ c :: post)) = remaining st
  ∧ ∃ outs clk,
      sent (serveAll env s st (pre ++ c :: post))
      = sent st ++ outs ++ [answer env s clk c]
      ∧ Forall2 (Answers env s) pre outs.
Proof.
  intros Hall Hc. revert st.
  induction Hall as [|r pre Hr _ IH]; intros st Hst; simpl.
  - destruct (serve_answer st c) as (Hrem & Hsent & Hcl).
    rewrite Hcl, Hc. repeat split; [congruence|done|].
    exists [], (clock st). by split.
  - destruct (serve_answer st r) as (Hrem & Hsent & Hcl).
    rewrite Hcl, Hr.
    destruct (IH (serve env s st r)) as (? & ? & outs & clk & ? & ?);
      [congruence|].
    repeat split; [done|congruence|].
    exists (answer env s (clock st) r :: outs), clk. split.
    + rewrite Hsent, <-app_assoc in *. done.
    + constructor; [by eexists|done].
Qed.

(** Either no candidate ends the connection or there is a first one
    that does. *)
Lemma first_closing requests :
  Forall (λ r, closes env r = false) requests
  ∨ ∃ pre c post, requests = pre ++ c :: post
                  ∧ Forall (λ r, closes env r = false) pre
                  ∧ closes env c = true.
Proof.
  induction requests as [|r requests IH]; [by left|].
  destruct (closes env r) eqn:Hr.
  { right. exists [], r, requests. by repeat split. }
  destruct IH as [IH|(pre & c & post & -> & Hpre & Hc)].
  - left. by constructor.
  - right. exists (r :: pre), c, post. repeat split; [|done]. by constructor.
Qed.

(** A closed connection is left alone: no more reads, no more writes. *)
Lemma iteration_closed st ev :
  closed st = true → iteration env s st ev = st.
Proof. unfold iteration. by intros ->. Qed.

Lemma run_closed st evs :
  closed st = true → foldl (iteration env s) st evs = st.
Proof.
  intros Hst. induction evs as [|ev evs IH]; [done|]. simpl.
  by rewrite iteration_closed.
Qed.

Lemma len_zero_iff (data : string) : len data = 0 ↔ data = "".
Proof. destruct data; [done|]. rewrite len_cons. unfold len. split; [lia|done]. Qed.

(** A read that brings bytes and no error, with a terminator in the
    buffer: the candidates are served in turn, and the tail is kept
    unless one of them closed the connection. *)
Lemma iteration_batch st data :
  closed st = false → data ≠ "" →
  strings_Contains (remaining st +:+ data) requestEndDelim = true →
  iteration env s st (ReadReturns data None)
  = let buf := remaining st +:+ data in
    let index := strings_LastIndex buf requestEndDelim in
    let st' :=
      serveAll env s
        {| remaining := buf; sent := sent st; closed := false;
           clock := clock st |}
        (strings_Split (str_take (Z.to_nat index) buf) requestEndDelim) in
    if closed st' then st'
    else {| remaining := str_drop (Z.to_nat (index + 4)) buf;
            sent := sent st'; closed := false; clock := clock st' |}.
Proof.
  intros Hst Hdata Hc. unfold iteration. rewrite Hst.
  assert ((len data =? 0) = false) as ->.
  { apply Z.eqb_neq. by rewrite len_zero_iff. }
  simpl. by rewrite Hc.
Qed.

Lemma str_take_length n (t : string) :
  (n ≤ String.length t)%nat → String.length (str_take n t) = n.
Proof.
  revert t. induction n as [|n IH]; intros [|c t]; simpl; try done; try lia.
  intros ?. rewrite IH; lia.
Qed.
End connection_facts.

Section closing_facts.
Context (env : Env) (s : Server).

Lemma answer_GoodRequest clk c req :
  parses env c = Some req →
  answer env s clk c = (reply_GoodRequest env s req clk).1.
Proof.
  pose proof (ReadRequest_shape env (c +:+ CRLF)) as Hs.
  unfold parses, answer.
  destruct (ReadRequest env (c +:+ CRLF)) as [[[[r|] recv] e] br'];
    simpl; [|done]. intros [= ->]. by destruct Hs as [_ ->].
Qed.

(** A batch whose first closing candidate is [c]: the candidates
    before it are answered, then [c] is, and the connection is closed
    for good. *)
Lemma iteration_closing st data buf pre c post :
  closed st = false → data ≠ "" →
  buf = remaining st +:+ data →
  strings_Contains buf requestEndDelim = true →
  strings_Split
    (str_take (Z.to_nat (strings_LastIndex buf requestEndDelim)) buf)
    requestEndDelim = pre ++ c :: post →
  Forall (λ r, closes env r = false) pre →
  closes env c = true →
  ∃ outs clk,
    sent (iteration env s st (ReadReturns data None))
    = sent st ++ outs ++ [answer env s clk c]
    ∧ Forall2 (Answers env s) pre outs
    ∧ closed (iteration env s st (ReadReturns data None)) = true
    ∧ ∀ evs, foldl (iteration env s)
               (iteration env s st (ReadReturns data None)) evs
             = iteration env s st (ReadReturns data None).
Proof.
  intros Hst Hdata Hbuf Hc Hsplit Hpre Hcl.
  rewrite iteration_batch by (by rewrite <-?Hbuf). rewrite <-Hbuf. simpl.
  rewrite Hsplit.
  destruct (serveAll_closing env s pre c post
              {| remaining := buf; sent := sent st; closed := false;
                 clock := clock st |} Hpre Hcl eq_refl)
    as (Hclosed & _ & outs & clk & Hs & HA).
  rewrite Hclosed. exists outs, clk. repeat split; [done..|].
  intros evs. by apply run_closed.
Qed.
End closing_facts.

(** ** Failed reads *)

Section read_failure_facts.
Context (env : Env) (s : Server).

(** With a partial request in the buffer, a failed or empty read is
    answered by one 400 response carrying [Connection: close], and the
    connection is closed. *)
Lemma iteration_read_failure_partial (st : Conn) data err :
  closed st = false → remaining st ≠ "" →
  (err ≠ None ∨ data = "") →
  iteration env s st (ReadReturns data err) = reply_BadRequest env st.
Proof.
  intros Hst Hrem Herr. unfold iteration. rewrite Hst.
  rewrite (bool_decide_eq_true_2 (remaining st ≠ "")) by done.
  destruct Herr as [Herr| ->].
  - by rewrite (bool_decide_eq_true_2 (err ≠ None)) by done.
  - by rewrite orb_true_r.
Qed.

(** With an empty buffer, end of stream and a timeout close the
    connection and nothing is written. *)
Lemma iteration_idle_EOF_or_timeout (st : Conn) data err :
  closed st = false → remaining st = "" →
  (err = Some io_EOF ∨ err = Some (net_Error true)) →
  iteration env s st (ReadReturns data err) = close_conn st.
Proof.
  intros Hst Hrem Herr. unfold iteration. rewrite Hst, Hrem.
  by destruct Herr as [-> | ->].
Qed.
(** With an empty buffer, a read that brings nothing and fails with any
    other error, or with none, leaves the connection open and the loop
    goes round again. *)
Lemma iteration_idle_other_failure (st : Conn) err :
  closed st = false → remaining st = "" →
  err ≠ Some io_EOF → is_Timeout err = false →
  iteration env s st (ReadReturns "" err)
  = {| remaining := ""; sent := sent st; closed := false;
       clock := clock st |}.
Proof.
  intros Hst Hrem HEOF Htime. unfold iteration. rewrite Hst, Hrem, Htime.
  rewrite (bool_decide_eq_false_2 ("" ≠ "")) by (by intros []).
  rewrite (bool_decide_eq_false_2 (err = Some io_EOF)) by done.
  by rewrite !andb_false_r.
Qed.
End read_failure_facts.

(** C3 (code defect): on a connection with an empty buffer, a read that
    returns zero bytes and an error that is neither [io.EOF] nor a
    timeout does not close the connection: the loop goes on to the next
    read with the connection open and nothing written. *)
Theorem read_error_on_idle_connection_stays_open (env : Env) (s : Server) :
  HandleConnection env s [ReadReturns "" (Some (net_Error false))]
  = {| remaining := ""; sent := []; closed := false; clock := O |}.
Proof. reflexivity. Qed.

(** * Further properties *)

(** ** Header lines *)

Section header_facts.
Context (env : Env).
Implicit Types (r : Request) (name rest line : string).

Lemma cut_colon_space_none line :
  has_byte ":" line = false → cut_colon_space line = None.
Proof.
  induction line as [|c line IH]; [done|]. simpl.
  intros [Hc Hl]%orb_false_elim. apply bool_decide_eq_false in Hc.
  rewrite decide_False by done. by rewrite IH.
Qed.

(** The first match of [:\s*] is at the first colon and takes the white
    space after it. *)
Lemma cut_colon_space_name name rest :
  has_byte ":" name = false →
  cut_colon_space (name +:+ String ":" rest)
  = Some (name, skip_regexp_space rest).
Proof.
  induction name as [|c name IH].
  - intros _. change ("" +:+ String ":" rest) with (String ":" rest).
    simpl. try case_decide; done.
  - intros H. simpl in H. apply orb_false_elim in H as [Hc Hl].
    apply bool_decide_eq_false in Hc.
    rewrite append_cons. simpl. rewrite decide_False by done. by rewrite IH.
Qed.

Lemma cut_colon_space_inv line b a :
  cut_colon_space line = Some (b, a) →
  has_byte ":" b = false
  ∧ ∃ rest, line = b +:+ String ":" rest ∧ a = skip_regexp_space rest.
Proof.
  revert b. induction line as [|c line IH]; intros b; [done|]. simpl.
  case_decide as Hc.
  - intros [= <- <-]. split; [done|]. exists line. by subst c.
  - destruct (cut_colon_space line) as [[b' a']|]; [|done].
    intros [= <- <-]. destruct (IH b' eq_refl) as (Hb & rest & -> & Ha).
    split.
    + simpl. by rewrite bool_decide_eq_false_2.
    + by exists rest.
Qed.

Lemma map_bytes_nil_iff f name : map_bytes f name = "" ↔ name = "".
Proof. by destruct name. Qed.

Lemma byte_toLower_space c :
  byte_toLower c = " "%char ↔ c = " "%char.
Proof.
  split; [|by intros ->].
  destruct c as [[] [] [] [] [] [] [] []]; vm_compute; congruence.
Qed.

Lemma last_byte_map_toLower name :
  last_byte (map_bytes byte_toLower name) = Some " "%char
  ↔ last_byte name = Some " "%char.
Proof.
  induction name as [|c name IH]; [done|].
  destruct name as [|d name].
  - simpl. split; intros [= H]; f_equal; by apply byte_toLower_space.
  - apply IH.
Qed.
End header_facts.

(** X1: a header line without a colon is refused with the error
    [Bad Header] and the request is left as it was. *)
Theorem ParseRequestHeader_no_colon (env : Env) (r : Request)
    (line : string) :
  has_byte ":" line = false →
  ParseRequestHeader env r line
  = (r, Some (fmt_Errorf ("Bad Header: " +:+ line))).
Proof.
  intros H. unfold ParseRequestHeader, regexp_colon_space_Split2.
  by rewrite cut_colon_space_none.
Qed.

Lemma ParseRequestHeader_no_colon_witness :
  ParseRequestHeader test_env Request_new "Host h"
  = (Request_new, Some (fmt_Errorf ("Bad Header: " +:+ "Host h"))).
Proof.
  apply (ParseRequestHeader_no_colon test_env Request_new "Host h").
  vm_compute; reflexivity.
Defined.

(** X2: a header line whose name (the text before the first colon) is
    empty, or is ASCII and ends in a space, is refused with the error
    [Bad Key] and the request is left as it was. *)
Theorem ParseRequestHeader_bad_key (env : Env) (r : Request)
    (name rest : string) :
  has_byte ":" name = false →
  name = "" ∨ (isASCII name = true ∧ last_byte name = Some " "%char) →
  ParseRequestHeader env r (name +:+ String ":" rest)
  = (r, Some (fmt_Errorf ("Bad Key: " +:+ name +:+ String ":" rest))).
Proof.
  intros Hc Hbad. unfold ParseRequestHeader, regexp_colon_space_Split2.
  rewrite cut_colon_space_name by done.
  assert (strings_ToLower env name = ""
          ∨ last_byte (strings_ToLower env name) = Some " "%char) as Hkey.
  { destruct Hbad as [->|[HA Hl]]; [by left|right].
    unfold strings_ToLower. rewrite HA. by apply last_byte_map_toLower. }
  destruct Hkey as [Hk|Hk].
  - rewrite Hk. done.
  - destruct (strings_ToLower env name) as [|c k] eqn:E; [done|].
    rewrite bool_decide_eq_true_2; [done|]. by split.
Qed.

Lemma ParseRequestHeader_bad_key_witness :
  ParseRequestHeader test_env Request_new ("Host " +:+ String ":" " h")
  = (Request_new,
     Some (fmt_Errorf ("Bad Key: " +:+ "Host " +:+ String ":" " h"))).
Proof.
  apply (ParseRequestHeader_bad_key test_env Request_new "Host " " h").
  - vm_compute; reflexivity.
  - right. split; vm_compute; reflexivity.
Defined.

Section accepted_header_facts.
Context (env : Env).
Implicit Types (r : Request) (name rest line : string).

Lemma byte_toLower_colon c :
  byte_toLower c = ":"%char ↔ c = ":"%char.
Proof.
  split; [|by intros ->].
  destruct c as [[] [] [] [] [] [] [] []]; vm_compute; congruence.
Qed.

Lemma has_byte_colon_toLower name :
  has_byte ":" (map_bytes byte_toLower name) = has_byte ":" name.
Proof.
  induction name as [|c name IH]; [done|]. simpl. rewrite IH. f_equal.
  apply bool_decide_ext, byte_toLower_colon.
Qed.

(** The name of a header, as long as it is ASCII, is lower-cased byte by
    byte. *)
Lemma ToLower_ASCII name :
  isASCII name = true →
  strings_ToLower env name = map_bytes byte_toLower name.
Proof. unfold strings_ToLower. by intros ->. Qed.

(** A header line whose key is in order: what the three branches do. *)
Lemma ParseRequestHeader_key_ok r name rest :
  has_byte ":" name = false →
  strings_ToLower env name ≠ "" →
  last_byte (strings_ToLower env name) ≠ Some " "%char →
  ParseRequestHeader env r (name +:+ String ":" rest)
  = (if decide (strings_ToLower env name = "connection") then
       {| Method := Method r; URL := URL r; Proto := Proto r;
          Header := Header r; Host := Host r;
          Close := bool_decide
                     (strings_TrimSpace env (skip_regexp_space rest)
                      = "close") |}
     else if decide (strings_ToLower env name = "host") then
       {| Method := Method r; URL := URL r; Proto := Proto r;
          Header := Header r; Host := skip_regexp_space rest;
          Close := Close r |}
     else
       {| Method := Method r; URL := URL r; Proto := Proto r;
          Header := <[name := skip_regexp_space rest]> (Header r);
          Host := Host r; Close := Close r |},
     None).
Proof.
  intros Hc Hne Hlast. unfold ParseRequestHeader, regexp_colon_space_Split2.
  rewrite cut_colon_space_name by done.
  rewrite (bool_decide_eq_false_2 (_ ∧ _)) by tauto.
  rewrite (bool_decide_eq_false_2 (len _ = 0)).
  2:{ destruct (strings_ToLower env name); [done|]. rewrite len_cons.
      unfold len. lia. }
  simpl. by repeat case_decide.
Qed.
End accepted_header_facts.

(** X3: a header line whose name is [Host] in any mix of cases sets the
    [Host] field to everything after the first colon and the white space
    that follows it (later colons stay in the value), overwriting an
    earlier host; the other fields and the header map are unchanged. *)
Theorem ParseRequestHeader_Host (env : Env) (r : Request)
    (name rest : string) :
  isASCII name = true → map_bytes byte_toLower name = "host" →
  ParseRequestHeader env r (name +:+ String ":" rest)
  = ({| Method := Method r; URL := URL r; Proto := Proto r;
        Header := Header r; Host := skip_regexp_space rest;
        Close := Close r |}, None).
Proof.
  intros HA Hlow.
  rewrite ParseRequestHeader_key_ok; rewrite ?ToLower_ASCII, ?Hlow; try done.
  by rewrite <-has_byte_colon_toLower, Hlow.
Qed.

Lemma ParseRequestHeader_Host_witness :
  ParseRequestHeader test_env
    {| Method := "GET"; URL := "/"; Proto := "HTTP/1.1"; Header := ∅;
       Host := "old"; Close := true |}
    ("hOsT" +:+ String ":" "  example.org:8080")
  = ({| Method := "GET"; URL := "/"; Proto := "HTTP/1.1"; Header := ∅;
        Host := skip_regexp_space "  example.org:8080"; Close := true |},
     None).
Proof.
  apply (ParseRequestHeader_Host test_env
           {| Method := "GET"; URL := "/"; Proto := "HTTP/1.1"; Header := ∅;
              Host := "old"; Close := true |} "hOsT" "  example.org:8080");
    vm_compute; reflexivity.
Defined.

(** X4: a header line whose name is [Connection] in any mix of cases sets
    the [Close] flag to whether the value, trimmed of white space, is
    exactly [close]; whatever the flag was before is forgotten, so a later
    [Connection] header with another value clears it. *)
Theorem ParseRequestHeader_Connection (env : Env) (r : Request)
    (name rest : string) :
  isASCII name = true → map_bytes byte_toLower name = "connection" →
  ParseRequestHeader env r (name +:+ String ":" rest)
  = ({| Method := Method r; URL := URL r; Proto := Proto r;
        Header := Header r; Host := Host r;
        Close := bool_decide
                   (strings_TrimSpace env (skip_regexp_space rest)
                    = "close") |}, None).
Proof.
  intros HA Hlow.
  rewrite ParseRequestHeader_key_ok; rewrite ?ToLower_ASCII, ?Hlow; try done.
  by rewrite <-has_byte_colon_toLower, Hlow.
Qed.

Lemma ParseRequestHeader_Connection_witness :
  ParseRequestHeader test_env
    {| Method := "GET"; URL := "/"; Proto := "HTTP/1.1"; Header := ∅;
       Host := "h"; Close := true |}
    ("CONNECTION" +:+ String ":" " Close")
  = ({| Method := "GET"; URL := "/"; Proto := "HTTP/1.1"; Header := ∅;
        Host := "h";
        Close := bool_decide
                   (strings_TrimSpace test_env (skip_regexp_space " Close")
                    = "close") |}, None).
Proof.
  apply (ParseRequestHeader_Connection test_env
           {| Method := "GET"; URL := "/"; Proto := "HTTP/1.1"; Header := ∅;
              Host := "h"; Close := true |} "CONNECTION" " Close");
    vm_compute; reflexivity.
Defined.

(** X5: any other header line with an ASCII name that is not empty, holds
    no colon and does not end in a space is stored in the header map under
    the name exactly as received (neither lower-cased nor put in canonical
    form), with the value after the colon and its white space; a value
    stored before under that name is replaced. *)
Theorem ParseRequestHeader_other (env : Env) (r : Request)
    (name rest : string) :
  isASCII name = true → has_byte ":" name = false →
  name ≠ "" → last_byte name ≠ Some " "%char →
  map_bytes byte_toLower name ≠ "host" →
  map_bytes byte_toLower name ≠ "connection" →
  ParseRequestHeader env r (name +:+ String ":" rest)
  = ({| Method := Method r; URL := URL r; Proto := Proto r;
        Header := <[name := skip_regexp_space rest]> (Header r);
        Host := Host r; Close := Close r |}, None).
Proof.
  intros HA Hc Hne Hlast Hh Hcn.
  rewrite ParseRequestHeader_key_ok; rewrite ?ToLower_ASCII; try done.
  - by rewrite !decide_False.
  - by rewrite map_bytes_nil_iff.
  - by rewrite last_byte_map_toLower.
Qed.

Lemma ParseRequestHeader_other_witness :
  ParseRequestHeader test_env Request_new
    ("accept-LANGUAGE" +:+ String ":" " en")
  = ({| Method := Method Request_new; URL := URL Request_new;
        Proto := Proto Request_new;
        Header := <["accept-LANGUAGE" := skip_regexp_space " en"]>
                    (Header Request_new);
        Host := Host Request_new; Close := Close Request_new |}, None).
Proof.
  apply (ParseRequestHeader_other test_env Request_new
           "accept-LANGUAGE" " en"); by vm_compute.
Defined.

(** ** The header map of a parsed request *)

Section header_map_facts.
Context (env : Env).

Lemma ParseRequestHeader_keys (r r' : Request) line :
  ParseRequestHeader env r line = (r', None) →
  (∀ k, is_Some (Header r !! k) → header_key_ok env k) →
  ∀ k, is_Some (Header r' !! k) → header_key_ok env k.
Proof.
  unfold ParseRequestHeader, regexp_colon_space_Split2.
  destruct (cut_colon_space line) as [[b a]|] eqn:Hcut; [|done].
  apply cut_colon_space_inv in Hcut as (Hb & rest & -> & ->).
  destruct (_ || _) eqn:Hbad; [done|].
  apply orb_false_elim in Hbad as [_ Hlen%bool_decide_eq_false].
  repeat case_decide; intros [= <-] Hr k Hk; simpl in *; try by apply Hr.
  destruct (decide (k = b)) as [->|Hne].
  - unfold header_key_ok, promoted_key. repeat split; [tauto| |done].
    intros ->. apply Hlen. unfold strings_ToLower. done.
  - rewrite lookup_insert_ne in Hk by done. by apply Hr.
Qed.

Lemma readHeaders_keys fuel (r r' : Request) br br' :
  readHeaders fuel env r br = (r', None, br') →
  (∀ k, is_Some (Header r !! k) → header_key_ok env k) →
  ∀ k, is_Some (Header r' !! k) → header_key_ok env k.
Proof.
  revert r br. induction fuel as [|fuel IH]; intros r br; simpl.
  { by intros [= <- <-]. }
  destruct (ReadLine br) as [[line|e] br1]; [|by intros [= <- <-]].
  case_decide; [by intros [= <- <-]|].
  destruct (ParseRequestHeader env r line) as [r1 [e|]] eqn:HP; [done|].
  intros Hrec Hr. eapply IH; [done|]. by eapply ParseRequestHeader_keys.
Qed.

Lemma ParseRequestInitLine_Header (r r' : Request) line e :
  ParseRequestInitLine r line = (r', e) → Header r' = Header r.
Proof.
  unfold ParseRequestInitLine.
  destruct (strings_SplitN line " " 3) as [|f0 [|f1 [|f2 [|]]]];
    by intros [= <- <-].
Qed.

Lemma ReadRequest_keys br req recv err br' :
  ReadRequest env br = (Some req, recv, err, br') →
  ∀ k, is_Some (Header req !! k) → header_key_ok env k.
Proof.
  unfold ReadRequest.
  destruct (ReadLine br) as [[line|e] br1]; [|done].
  destruct (ParseRequestInitLine Request_new line) as [req1 [e|]] eqn:HI;
    [done|].
  destruct (readHeaders _ env req1 br1) as [[req2 [e|]] br2] eqn:HH; [done|].
  destruct (ValidateRequest req2); [done|]. intros [= <-] k Hk.
  eapply readHeaders_keys; [done| |done].
  apply ParseRequestInitLine_Header in HI. rewrite HI. simpl.
  intros k' [v Hv]. by rewrite lookup_empty in Hv.
Qed.
End header_map_facts.

(** X6: in a request returned by [ReadRequest] the header map never holds
    [Host] or [Connection] under any spelling that lower-cases to them,
    and its keys are not empty and hold no colon. *)
Theorem ReadRequest_Header_excludes_promoted (env : Env) (br : Reader)
    (req : Request) recv err br' (k v : string) :
  ReadRequest env br = (Some req, recv, err, br') →
  Header req !! k = Some v →
  ¬ promoted_key env k ∧ k ≠ "" ∧ has_byte ":" k = false.
Proof.
  intros HR Hk. by eapply (ReadRequest_keys env br), mk_is_Some.
Qed.

Lemma ReadRequest_Header_excludes_promoted_witness :
  ¬ promoted_key test_env "Accept" ∧ "Accept" ≠ ""
  ∧ has_byte ":" "Accept" = false.
Proof.
  apply (ReadRequest_Header_excludes_promoted test_env
           (crlf "GET / HTTP/1.1~HOST: h~Accept: x~Connection: close~")
           {| Method := "GET"; URL := "/"; Proto := "HTTP/1.1";
              Header := {[ "Accept" := "x" ]}; Host := "h"; Close := true |}
           true None "" "Accept" "x");
    vm_compute; reflexivity.
Defined.

(** ** Reading back a request text *)

Section round_trip_facts.
Context (env : Env).
Implicit Types (s sep line rest : string).

(** [Index] is the first position at which [sep] occurs. *)
Lemma Index_at s sep (j : nat) :
  strings_HasPrefix (str_drop j s) sep = true →
  (∀ i, (i < j)%nat → strings_HasPrefix (str_drop i s) sep = false) →
  (j ≤ String.length s)%nat →
  strings_Index s sep = Z.of_nat j.
Proof.
  revert j. induction s as [|c s IH]; intros j Hj Hlt Hlen.
  - simpl in Hlen. assert (j = O) as -> by lia.
    rewrite Index_nil. change (str_drop 0 "") with "" in Hj. by rewrite Hj.
  - rewrite Index_cons. destruct j as [|j].
    + change (str_drop 0 (String c s)) with (String c s) in Hj.
      by rewrite Hj.
    + pose proof (Hlt O ltac:(lia)) as H0.
      change (str_drop 0 (String c s)) with (String c s) in H0.
      rewrite H0.
      change (str_drop (S j) (String c s)) with (str_drop j s) in Hj.
      simpl in Hlen.
      rewrite (IH j); [|done| |lia].
      * destruct (Z.ltb_spec (Z.of_nat j) 0); lia.
      * intros i Hi. apply (Hlt (S i)). lia.
Qed.

Lemma str_drop_app_lt (i : nat) (a b : string) :
  (i ≤ String.length a)%nat → str_drop i (a +:+ b) = str_drop i a +:+ b.
Proof.
  revert a. induction i as [|i IH]; intros a Hi; [done|].
  destruct a as [|c a]; [simpl in Hi; lia|].
  rewrite append_cons. simpl. apply IH. simpl in Hi. lia.
Qed.

(** No CRLF starts inside a line that holds no LF, whatever follows the
    CRLF that ends it. *)
Lemma no_CRLF_inside line rest (i : nat) :
  has_byte LF line = false → (i < String.length line)%nat →
  strings_HasPrefix (str_drop i (line +:+ CRLF +:+ rest)) CRLF = false.
Proof.
  revert i. induction line as [|c line IH]; intros i Hl Hi;
    [simpl in Hi; lia|].
  simpl in Hl. apply orb_false_elim in Hl as [Hc Hl].
  apply bool_decide_eq_false in Hc. rewrite append_cons.
  destruct i as [|i]; [|simpl; apply IH; [done|simpl in Hi; lia]].
  simpl. case_decide; [|done]. destruct line as [|d line].
  - reflexivity.
  - rewrite append_cons. simpl in Hl.
    apply orb_false_elim in Hl as [Hd _]. apply bool_decide_eq_false in Hd.
    simpl. by rewrite decide_False by congruence.
Qed.

Lemma ReadLine_line line rest :
  has_byte LF line = false →
  ReadLine (line +:+ CRLF +:+ rest) = (inl line, rest).
Proof.
  intros Hl. unfold ReadLine.
  rewrite (Index_at _ CRLF (String.length line)).
  - destruct (Z.ltb_spec (Z.of_nat (String.length line)) 0); [lia|].
    rewrite Nat2Z.id, str_take_app.
    replace (Z.to_nat (Z.of_nat (String.length line) + 2))
      with (String.length (line +:+ CRLF))
      by (rewrite length_append; simpl; lia).
    by rewrite <-append_assoc, str_drop_app.
  - rewrite str_drop_app. apply HasPrefix_app.
  - intros i Hi. by apply no_CRLF_inside.
  - rewrite length_append. lia.
Qed.

Lemma no_byte_inside (c : ascii) (a rest : string) (i : nat) :
  has_byte c a = false → (i < String.length a)%nat →
  strings_HasPrefix (str_drop i (a +:+ String c rest)) (String c "") = false.
Proof.
  revert i. induction a as [|d a IH]; intros i Ha Hi; [simpl in Hi; lia|].
  simpl in Ha. apply orb_false_elim in Ha as [Hd Ha].
  apply bool_decide_eq_false in Hd. rewrite append_cons.
  destruct i as [|i]; [|simpl; apply IH; [done|simpl in Hi; lia]].
  simpl. rewrite decide_False; [done|]. by intros ->.
Qed.

Lemma Index_byte (c : ascii) (a rest : string) :
  has_byte c a = false →
  strings_Index (a +:+ String c rest) (String c "")
  = Z.of_nat (String.length a).
Proof.
  intros Ha. apply Index_at.
  - rewrite str_drop_app. simpl. rewrite decide_True by done.
    by destruct rest.
  - intros i Hi. by apply no_byte_inside.
  - rewrite length_append. lia.
Qed.

(** Cutting at the first occurrence of a one-byte separator. *)
Lemma genSplit_byte n (c : ascii) (a rest : string) :
  has_byte c a = false →
  genSplit (S n) (a +:+ String c rest) (String c "")
  = a :: genSplit n rest (String c "").
Proof.
  intros Ha. rewrite genSplit_S, Index_byte by done.
  destruct (Z.ltb_spec (Z.of_nat (String.length a)) 0); [lia|].
  rewrite Nat2Z.id, str_take_app. f_equal. f_equal.
  replace (Z.to_nat (Z.of_nat (String.length a) + len (String c "")))
    with (String.length (a +:+ String c "")).
  - change (String c rest) with (String c "" +:+ rest).
    by rewrite <-append_assoc, str_drop_app.
  - rewrite length_append. unfold len. simpl. lia.
Qed.

Lemma readHeaders_next (r r' : Request) br line br1 :
  ReadLine br = (inl line, br1) → line ≠ "" →
  ParseRequestHeader env r line = (r', None) →
  readHeaders (S (String.length br)) env r br
  = readHeaders (S (String.length br1)) env r' br1.
Proof.
  intros HR Hne HP.
  set (rhs := readHeaders (S (String.length br1)) env r' br1).
  simpl. rewrite HR, decide_False, HP by done. subst rhs.
  apply ReadLine_shrinks in HR. apply readHeaders_fuel; lia.
Qed.

Lemma readHeaders_end (r : Request) br :
  br = "" ∨ br = CRLF →
  readHeaders (S (String.length br)) env r br = (r, None, "").
Proof. by intros [-> | ->]. Qed.
End round_trip_facts.

Section request_text_facts.
Context (env : Env).

Lemma has_byte_app (c : ascii) (a b : string) :
  has_byte c (a +:+ b) = has_byte c a || has_byte c b.
Proof.
  induction a as [|d a IH]; [done|]. rewrite append_cons. simpl.
  by rewrite IH, orb_assoc.
Qed.

Lemma ParseRequestInitLine_GET (url : string) :
  has_byte " " url = false →
  ParseRequestInitLine Request_new ("GET " +:+ url +:+ " HTTP/1.1")
  = (request_of url "" false, None).
Proof.
  intros Hu. unfold ParseRequestInitLine, strings_SplitN. simpl Nat.pred.
  change ("GET " +:+ url +:+ " HTTP/1.1")
    with ("GET" +:+ String " " (url +:+ String " " "HTTP/1.1")).
  rewrite (genSplit_byte 1 " " "GET") by done.
  by rewrite (genSplit_byte 0 " " url) by done.
Qed.

Lemma ParseRequestHeader_Host_line (r : Request) (host : string) :
  skip_regexp_space host = host →
  ParseRequestHeader env r ("Host: " +:+ host)
  = ({| Method := Method r; URL := URL r; Proto := Proto r;
        Header := Header r; Host := host; Close := Close r |}, None).
Proof.
  intros Hh.
  change ("Host: " +:+ host) with ("Host" +:+ String ":" (String " " host)).
  rewrite ParseRequestHeader_key_ok by done.
  simpl. by rewrite Hh.
Qed.

Lemma ParseRequestHeader_Connection_close (r : Request) :
  ParseRequestHeader env r "Connection: close"
  = ({| Method := Method r; URL := URL r; Proto := Proto r;
        Header := Header r; Host := Host r; Close := true |}, None).
Proof.
  change "Connection: close" with ("Connection" +:+ String ":" " close").
  by rewrite ParseRequestHeader_key_ok.
Qed.

(** The header block of a request text, with or without the empty line
    after it. *)
Lemma readHeaders_request_text (url host : string) (close : bool)
    (tail : string) :
  tail = "" ∨ tail = CRLF →
  host ≠ "" → has_byte LF host = false → skip_regexp_space host = host →
  let br := "Host: " +:+ host +:+ CRLF
            +:+ (if close then "Connection: close" +:+ CRLF else "")
            +:+ tail in
  readHeaders (S (String.length br)) env (request_of url "" false) br
  = (request_of url host close, None, "").
Proof.
  intros Htail Hne Hlf Hskip br. subst br.
  assert (has_byte LF ("Host: " +:+ host) = false) as Hl2.
  { by rewrite has_byte_app, Hlf. }
  rewrite <-(append_assoc "Host: " host).
  erewrite readHeaders_next;
    [|by apply ReadLine_line| |by apply ParseRequestHeader_Host_line].
  2:{ by destruct host. }
  destruct close.
  - rewrite (append_assoc "Connection: close" CRLF tail).
    erewrite readHeaders_next;
      [|by apply ReadLine_line|done|by apply ParseRequestHeader_Connection_close].
    by apply readHeaders_end.
  - by apply readHeaders_end.
Qed.

Lemma ReadRequest_request_tail (url host : string) (close : bool)
    (tail : string) :
  tail = "" ∨ tail = CRLF →
  first_byte url = Some "/"%char →
  has_byte " " url = false → has_byte LF url = false →
  host ≠ "" → has_byte LF host = false → skip_regexp_space host = host →
  ReadRequest env (request_head url host close +:+ tail)
  = (Some (request_of url host close), true, None, "").
Proof.
  intros Htail Hslash Hsp Hlf Hne Hhlf Hskip.
  unfold ReadRequest, request_head.
  assert (has_byte LF ("GET " +:+ url +:+ " HTTP/1.1") = false) as Hl1.
  { by rewrite !has_byte_app, Hlf. }
  replace (("GET " +:+ url +:+ " HTTP/1.1" +:+ CRLF +:+ "Host: " +:+ host
            +:+ CRLF
            +:+ (if close then "Connection: close" +:+ CRLF else ""))
           +:+ tail)
    with (("GET " +:+ url +:+ " HTTP/1.1") +:+ CRLF
          +:+ ("Host: " +:+ host +:+ CRLF
               +:+ (if close then "Connection: close" +:+ CRLF else "")
               +:+ tail))
    by (by rewrite !append_assoc).
  rewrite ReadLine_line, ParseRequestInitLine_GET by done.
  rewrite (readHeaders_request_text url host close tail) by done.
  unfold ValidateRequest, request_of. simpl.
  rewrite (bool_decide_eq_false_2 (url = "")) by (by intros ->).
  rewrite (bool_decide_eq_false_2 (first_byte url ≠ _)) by tauto.
  simpl. by rewrite decide_False.
Qed.
End request_text_facts.

(** X7: the text of a GET request (request line, [Host] header,
    [Connection: close] header if asked for), with or without the empty
    line that ends the header block, is read back by [ReadRequest] as
    the request it was written from, provided the target starts with a
    slash and holds no space or line feed, and the host is not empty,
    holds no line feed and does not start with white space; the whole
    stream is consumed. *)
Theorem ReadRequest_round_trip (env : Env) (url host : string)
    (close : bool) :
  first_byte url = Some "/"%char →
  has_byte " " url = false → has_byte LF url = false →
  host ≠ "" → has_byte LF host = false → skip_regexp_space host = host →
  ReadRequest env (request_text url host close)
  = (Some (request_of url host close), true, None, "")
  ∧ ReadRequest env (request_head url host close)
    = (Some (request_of url host close), true, None, "").
Proof.
  intros. split.
  - apply ReadRequest_request_tail; auto.
  - rewrite <-(append_nil_r (request_head url host close)).
    apply ReadRequest_request_tail; auto.
Qed.

Lemma ReadRequest_round_trip_witness :
  ReadRequest test_env (request_text "/a/b.html" "example.org:80" true)
  = (Some (request_of "/a/b.html" "example.org:80" true), true, None, "")
  ∧ ReadRequest test_env (request_head "/a/b.html" "example.org:80" true)
    = (Some (request_of "/a/b.html" "example.org:80" true), true, None, "").
Proof.
  apply (ReadRequest_round_trip test_env "/a/b.html" "example.org:80" true);
    by vm_compute.
Defined.

(** ** Writing a response *)

Section write_facts.
Context (env : Env).
Implicit Types (w : Writer) (res : Response) (a b s : string).

Lemma str_take_all (n : nat) a :
  (String.length a ≤ n)%nat → str_take n a = a.
Proof.
  revert a. induction n as [|n IH]; intros [|c a] Hn; simpl in *;
    try done; try lia.
  rewrite IH; [done|lia].
Qed.

Lemma str_take_app_le (n : nat) a b :
  (n ≤ String.length a)%nat → str_take n (a +:+ b) = str_take n a.
Proof.
  revert a. induction n as [|n IH]; intros a Hn.
  - by destruct a, b.
  - destruct a as [|c a]; [simpl in Hn; lia|].
    rewrite append_cons. simpl. rewrite IH; [done|simpl in Hn; lia].
Qed.

Lemma str_take_app_ge (n : nat) a b :
  (String.length a ≤ n)%nat →
  str_take n (a +:+ b) = a +:+ str_take (n - String.length a) b.
Proof.
  revert n. induction a as [|c a IH]; intros n Hn.
  - change ("" +:+ b) with b. simpl. by rewrite Nat.sub_0_r.
  - destruct n as [|n]; [simpl in Hn; lia|].
    rewrite !append_cons. simpl. rewrite IH; [done|simpl in Hn; lia].
Qed.

Lemma bufio_unlimited w s :
  room w = None →
  bufio_WriteString_Flush w s
  = ({| written := written w +:+ s; room := None |}, None).
Proof. intros Hr. unfold bufio_WriteString_Flush. by rewrite Hr. Qed.

(** What a writer with room for [n] more bytes does with a string. *)
Lemma bufio_limited w (n : nat) s :
  room w = Some n →
  bufio_WriteString_Flush w s
  = ({| written := written w +:+ str_take n s;
        room := Some (n - String.length s)%nat |},
     if (String.length s <=? n)%nat then None
     else Some (fmt_Errorf "short write")).
Proof.
  intros Hr. unfold bufio_WriteString_Flush. rewrite Hr.
  destruct (Nat.leb_spec (String.length s) n) as [Hle|Hlt].
  - by rewrite str_take_all.
  - do 3 f_equal. lia.
Qed.

Lemma WriteBody_body_of_limited w (n : nat) res :
  room w = Some n →
  WriteBody env res w
  = ({| written := written w +:+ str_take n (body_of env res);
        room := Some (n - String.length (body_of env res))%nat |},
     if (String.length (body_of env res) <=? n)%nat then None
     else Some (fmt_Errorf "short write")).
Proof.
  intros Hr. unfold WriteBody, body_of.
  assert (w = {| written := written w +:+ str_take n "";
                 room := Some (n - 0)%nat |}) as Hw.
  { destruct w as [wr ro]. simpl in *. subst ro.
    rewrite Nat.sub_0_r. destruct n; by rewrite append_nil_r. }
  case_decide; [by rewrite Hw at 1|].
  destruct (os_Open env (FilePath res)) as [content|]; simpl.
  - by apply bufio_limited.
  - by rewrite Hw at 1.
Qed.
End write_facts.

(** X8: on a writer that never fails, [Write] returns no error and
    appends, in this order, the status line, the header entries as
    [Key: value] lines in sorted key order with the blank line, and the
    body: the content of the file at [FilePath], or nothing when the path
    is empty or the file does not open. *)
Theorem Response_Write_bytes (env : Env) (res : Response) (w : Writer) :
  room w = None →
  Response_Write env res w
  = ({| written :=
          written w +:+ statusLine res
          +:+ headerBlock
                ((λ k, (k, map_index (ResHeader res) k))
                   <$> sort_Strings (range_keys (ResHeader res)))
          +:+ body_of env res;
        room := None |}, None).
Proof.
  intros Hr. unfold Response_Write, WriteStatusLine, WriteSortedHeaders.
  rewrite (bufio_unlimited w _ Hr).
  erewrite bufio_unlimited by reflexivity. simpl written.
  rewrite responseHeader_headerBlock by done.
  unfold WriteBody, body_of. rewrite !append_assoc.
  case_decide; [by rewrite append_nil_r|].
  destruct (os_Open env (FilePath res)) as [content|]; simpl.
  - erewrite bufio_unlimited by reflexivity. simpl written.
    by rewrite !append_assoc.
  - by rewrite append_nil_r.
Qed.

Lemma Response_Write_bytes_witness :
  Response_Write test_env res_two_headers test_conn
  = ({| written :=
          written test_conn +:+ statusLine res_two_headers
          +:+ headerBlock
                ((λ k, (k, map_index (ResHeader res_two_headers) k))
                   <$> sort_Strings (range_keys (ResHeader res_two_headers)))
          +:+ body_of test_env res_two_headers;
        room := None |}, None).
Proof.
  apply (Response_Write_bytes test_env res_two_headers test_conn).
  reflexivity.
Defined.

(** X9: on a writer that takes [n] more bytes, [Write] sends exactly the
    first [n] bytes of the status line, header block and body put end to
    end, and returns an error exactly when that cuts something off: a
    failed status line or header write stops the response there. *)
Theorem Response_Write_limited (env : Env) (res : Response) (w : Writer)
    (n : nat) (total : string) :
  room w = Some n →
  total = statusLine res
          +:+ responseHeader (ResHeader res) (range_keys (ResHeader res))
          +:+ body_of env res →
  Response_Write env res w
  = ({| written := written w +:+ str_take n total;
        room := Some (n - String.length total)%nat |},
     if (String.length total <=? n)%nat then None
     else Some (fmt_Errorf "short write")).
Proof.
  intros Hr ->. unfold Response_Write, WriteStatusLine, WriteSortedHeaders.
  set (sl := statusLine res).
  set (hd := responseHeader (ResHeader res) (range_keys (ResHeader res))).
  set (bd := body_of env res).
  rewrite (bufio_limited w n sl Hr), !length_append.
  destruct (Nat.leb_spec (String.length sl) n) as [Hsl|Hsl].
  2:{ rewrite str_take_app_le by lia.
      destruct (Nat.leb_spec
                  (String.length sl + (String.length hd + String.length bd))
                  n); [lia|].
      f_equal. f_equal. f_equal. lia. }
  erewrite bufio_limited by reflexivity. simpl written.
  rewrite (str_take_app_ge n sl), (str_take_all n sl) by done.
  destruct (Nat.leb_spec (String.length hd) (n - String.length sl))
    as [Hhd|Hhd].
  2:{ rewrite str_take_app_le by lia.
      destruct (Nat.leb_spec
                  (String.length sl + (String.length hd + String.length bd))
                  n); [lia|].
      f_equal. f_equal; [by rewrite append_assoc|]. f_equal. lia. }
  erewrite WriteBody_body_of_limited by reflexivity. simpl written.
  fold bd. rewrite (str_take_app_ge _ hd), (str_take_all _ hd) by done.
  f_equal.
  - f_equal; [by rewrite !append_assoc|]. f_equal. lia.
  - destruct (Nat.leb_spec (String.length bd)
                (n - String.length sl - String.length hd));
      destruct (Nat.leb_spec
                  (String.length sl + (String.length hd + String.length bd))
                  n); done || lia.
Qed.

Lemma Response_Write_limited_witness :
  Response_Write test_env res_two_headers
    {| written := ""; room := Some 10%nat |}
  = ({| written :=
          "" +:+ str_take 10
                   (statusLine res_two_headers
                    +:+ responseHeader (ResHeader res_two_headers)
                          (range_keys (ResHeader res_two_headers))
                    +:+ body_of test_env res_two_headers);
        room :=
          Some (10 - String.length
                       (statusLine res_two_headers
                        +:+ responseHeader (ResHeader res_two_headers)
                              (range_keys (ResHeader res_two_headers))
                        +:+ body_of test_env res_two_headers))%nat |},
     if (String.length
           (statusLine res_two_headers
            +:+ responseHeader (ResHeader res_two_headers)
                  (range_keys (ResHeader res_two_headers))
            +:+ body_of test_env res_two_headers) <=? 10)%nat
     then None else Some (fmt_Errorf "short write")).
Proof.
  apply (Response_Write_limited test_env res_two_headers
           {| written := ""; room := Some 10%nat |} 10); reflexivity.
Defined.

Example Response_Write_limited_ex :
  Response_Write test_env res_two_headers
    {| written := ""; room := Some 10%nat |}
  = ({| written := "HTTP/1.1 4"; room := Some O |},
     Some (fmt_Errorf "short write")).
Proof. vm_compute; reflexivity. Qed.

(** ** Resolving a request to a file *)

Section resolve_facts.
Context (env : Env) (s : Server).
Implicit Types (req : Request) (res : Response).

Lemma add_Connection_close_lookup (close : bool) (h : gmap string string)
    (k : string) :
  k ≠ CanonicalHeaderKey env "Connection" →
  add_Connection_close env close h !! k = h !! k.
Proof.
  intros Hk. unfold add_Connection_close. destruct close; [|done].
  by rewrite lookup_insert_ne.
Qed.

(** The two shapes of the result of [HandleGoodRequest]. *)
Lemma HandleGoodRequest_cases req clk :
  (∃ h, (HandleGoodRequest env s req clk).1
        = {| StatusCode := 404; ResProto := "";
             ResHeader := add_Connection_close env (Close req) h;
             ResRequest := None; FilePath := "" |}
        ∧ h = {[ CanonicalHeaderKey env "Date"
                 := FormatTime env (time_Now env clk) ]})
  ∨ (∃ fileRel fileName info,
       filepath_Rel env (DocRoot s) (path_Join env (DocRoot s) (URL req))
       = Some fileRel
       ∧ ¬ (2 ≤ len fileRel ∧ str_take 2 fileRel = "..")
       ∧ ReadFilePath env (path_Join env (DocRoot s) (URL req)) (URL req)
         = (fileName, None)
       ∧ os_Stat env fileName = Some info
       ∧ (HandleGoodRequest env s req clk).1
         = {| StatusCode := 200; ResProto := "";
              ResHeader :=
                add_Connection_close env (Close req)
                  (<[CanonicalHeaderKey env "Last-Modified" :=
                       FormatTime env (ModTime info)]>
                  (<[CanonicalHeaderKey env "Content-Length" :=
                       itoa (Size info)]>
                  (<[CanonicalHeaderKey env "Content-Type" :=
                       MIMETypeByExtension env (filepath_Ext env fileName)]>
                  {[ CanonicalHeaderKey env "Date" :=
                       FormatTime env (time_Now env (S clk)) ]})));
              ResRequest := None; FilePath := fileName |}).
Proof.
  unfold HandleGoodRequest.
  destruct (filepath_Rel env _ _) as [fileRel|] eqn:HRel; [|left; eauto].
  destruct ((2 <=? len fileRel) && bool_decide (str_take 2 fileRel = ".."))
    eqn:Hesc; [left; eauto|].
  destruct (ReadFilePath env _ _) as [fileName [e|]] eqn:HRF; [left; eauto|].
  destruct (os_Stat env fileName) as [info|] eqn:HStat; [|left; eauto].
  right. exists fileRel, fileName, info. repeat split; try done.
  intros [Hlen Hdots]. apply andb_false_iff in Hesc as [Hesc|Hesc].
  - apply Z.leb_gt in Hesc. lia.
  - by apply bool_decide_eq_false in Hesc.
Qed.

Lemma ReadFilePath_ok fileName url name :
  ReadFilePath env fileName url = (name, None) →
  (os_Lstat env fileName = Some ModeRegular
   ∧ last_byte url ≠ Some "/"%char ∧ name = fileName)
  ∨ (os_Lstat env fileName = Some ModeDir
     ∧ last_byte url = Some "/"%char
     ∧ name = path_Join env fileName "./index.html")
  ∨ (os_Lstat env fileName = Some ModeOther ∧ name = fileName).
Proof.
  unfold ReadFilePath, ends_in_slash.
  destruct (os_Lstat env fileName) as [[]|]; [| | |done].
  - case_bool_decide; [done|]. intros [= <-]. by left.
  - case_bool_decide; [|done]. intros [= <-]. right. by left.
  - intros [= <-]. right. by right.
Qed.
End resolve_facts.

(** X10: a 200 result of [HandleGoodRequest] comes only for a target under
    the document root (the path relative to the root exists and does not
    begin with two dots) whose file is a regular file asked for without a
    trailing slash, or a directory asked for with one and then served as
    its [index.html], or a file of another kind; [FilePath] is that file
    and its [os.Stat] succeeded. *)
Theorem HandleGoodRequest_200_file (env : Env) (s : Server) (req : Request)
    (clk : nat) :
  StatusCode (HandleGoodRequest env s req clk).1 = 200 →
  ∃ fileRel info,
    filepath_Rel env (DocRoot s) (path_Join env (DocRoot s) (URL req))
    = Some fileRel
    ∧ ¬ (2 ≤ len fileRel ∧ str_take 2 fileRel = "..")
    ∧ os_Stat env (FilePath (HandleGoodRequest env s req clk).1) = Some info
    ∧ ((os_Lstat env (path_Join env (DocRoot s) (URL req)) = Some ModeRegular
        ∧ last_byte (URL req) ≠ Some "/"%char
        ∧ FilePath (HandleGoodRequest env s req clk).1
          = path_Join env (DocRoot s) (URL req))
       ∨ (os_Lstat env (path_Join env (DocRoot s) (URL req)) = Some ModeDir
          ∧ last_byte (URL req) = Some "/"%char
          ∧ FilePath (HandleGoodRequest env s req clk).1
            = path_Join env (path_Join env (DocRoot s) (URL req))
                "./index.html")
       ∨ (os_Lstat env (path_Join env (DocRoot s) (URL req)) = Some ModeOther
          ∧ FilePath (HandleGoodRequest env s req clk).1
            = path_Join env (DocRoot s) (URL req))).
Proof.
  destruct (HandleGoodRequest_cases env s req clk)
    as [(h & -> & _)|(fileRel & fileName & info & HRel & Hesc & HRF & HStat
                      & ->)]; [done|].
  intros _. exists fileRel, info. simpl.
  repeat split; [done..|]. by apply ReadFilePath_ok in HRF.
Qed.

Lemma HandleGoodRequest_200_file_witness :
  ∃ fileRel info,
    filepath_Rel test_env (DocRoot test_server)
      (path_Join test_env (DocRoot test_server)
         (URL (request_of "/a" "h" false)))
    = Some fileRel
    ∧ ¬ (2 ≤ len fileRel ∧ str_take 2 fileRel = "..")
    ∧ os_Stat test_env
        (FilePath (HandleGoodRequest test_env test_server
                     (request_of "/a" "h" false) 0).1) = Some info
    ∧ ((os_Lstat test_env
          (path_Join test_env (DocRoot test_server)
             (URL (request_of "/a" "h" false))) = Some ModeRegular
        ∧ last_byte (URL (request_of "/a" "h" false)) ≠ Some "/"%char
        ∧ FilePath (HandleGoodRequest test_env test_server
                      (request_of "/a" "h" false) 0).1
          = path_Join test_env (DocRoot test_server)
              (URL (request_of "/a" "h" false)))
       ∨ (os_Lstat test_env
            (path_Join test_env (DocRoot test_server)
               (URL (request_of "/a" "h" false))) = Some ModeDir
          ∧ last_byte (URL (request_of "/a" "h" false)) = Some "/"%char
          ∧ FilePath (HandleGoodRequest test_env test_server
                        (request_of "/a" "h" false) 0).1
            = path_Join test_env
                (path_Join test_env (DocRoot test_server)
                   (URL (request_of "/a" "h" false))) "./index.html")
       ∨ (os_Lstat test_env
            (path_Join test_env (DocRoot test_server)
               (URL (request_of "/a" "h" false))) = Some ModeOther
          ∧ FilePath (HandleGoodRequest test_env test_server
                        (request_of "/a" "h" false) 0).1
            = path_Join test_env (DocRoot test_server)
                (URL (request_of "/a" "h" false)))).
Proof.
  apply (HandleGoodRequest_200_file test_env test_server
           (request_of "/a" "h" false) 0).
  vm_compute; reflexivity.
Defined.

(** X11: when the canonical names of the five response headers differ
    from one another, a 200 result of [HandleGoodRequest] carries
    [Content-Length] equal to the size [os.Stat] reports for the file
    served, [Content-Type] equal to the MIME type of its extension and
    [Last-Modified] equal to its formatted modification time. *)
Theorem HandleGoodRequest_200_headers (env : Env) (s : Server)
    (req : Request) (clk : nat) (info : FileInfo) :
  NoDup (CanonicalHeaderKey env <$>
           ["Date"; "Content-Type"; "Content-Length"; "Last-Modified";
            "Connection"]) →
  StatusCode (HandleGoodRequest env s req clk).1 = 200 →
  os_Stat env (FilePath (HandleGoodRequest env s req clk).1) = Some info →
  ResHeader (HandleGoodRequest env s req clk).1
    !! CanonicalHeaderKey env "Content-Length" = Some (itoa (Size info))
  ∧ ResHeader (HandleGoodRequest env s req clk).1
      !! CanonicalHeaderKey env "Content-Type"
    = Some (MIMETypeByExtension env
              (filepath_Ext env
                 (FilePath (HandleGoodRequest env s req clk).1)))
  ∧ ResHeader (HandleGoodRequest env s req clk).1
      !! CanonicalHeaderKey env "Last-Modified"
    = Some (FormatTime env (ModTime info)).
Proof.
  intros Hnd.
  destruct (HandleGoodRequest_cases env s req clk)
    as [(h & -> & _)|(fileRel & fileName & info' & HRel & Hesc & HRF & HStat
                      & ->)]; [done|].
  simpl. intros _ Hinfo. rewrite HStat in Hinfo. injection Hinfo as <-.
  rewrite !fmap_cons, fmap_nil in Hnd.
  apply NoDup_cons in Hnd as [Hd Hnd]. apply NoDup_cons in Hnd as [Ht Hnd].
  apply NoDup_cons in Hnd as [Hl Hnd]. apply NoDup_cons in Hnd as [Hm _].
  apply not_elem_of_cons in Ht as [Ht1 Ht].
  apply not_elem_of_cons in Ht as [Ht2 Ht].
  apply not_elem_of_cons in Ht as [Ht3 _].
  apply not_elem_of_cons in Hl as [Hl1 Hl].
  apply not_elem_of_cons in Hl as [Hl2 _].
  apply not_elem_of_cons in Hm as [Hm1 _].
  rewrite !add_Connection_close_lookup by done.
  repeat split.
  - rewrite lookup_insert_ne by (by intros e; apply Hl1).
    apply lookup_insert_eq.
  - rewrite lookup_insert_ne by (by intros e; apply Ht2).
    rewrite lookup_insert_ne by (by intros e; apply Ht1).
    apply lookup_insert_eq.
  - apply lookup_insert_eq.
Qed.

Lemma HandleGoodRequest_200_headers_witness :
  ResHeader (HandleGoodRequest test_env test_server
               (request_of "/a" "h" true) 0).1
    !! CanonicalHeaderKey test_env "Content-Length"
  = Some (itoa (Size {| Size := 3; ModTime := 7 |}))
  ∧ ResHeader (HandleGoodRequest test_env test_server
                 (request_of "/a" "h" true) 0).1
      !! CanonicalHeaderKey test_env "Content-Type"
    = Some (MIMETypeByExtension test_env
              (filepath_Ext test_env
                 (FilePath (HandleGoodRequest test_env test_server
                              (request_of "/a" "h" true) 0).1)))
  ∧ ResHeader (HandleGoodRequest test_env test_server
                 (request_of "/a" "h" true) 0).1
      !! CanonicalHeaderKey test_env "Last-Modified"
    = Some (FormatTime test_env (ModTime {| Size := 3; ModTime := 7 |})).
Proof.
  apply (HandleGoodRequest_200_headers test_env test_server
           (request_of "/a" "h" true) 0 {| Size := 3; ModTime := 7 |}).
  - apply (bool_decide_unpack _). vm_compute. exact I.
  - vm_compute; reflexivity.
  - vm_compute; reflexivity.
Defined.

(** ** What a connection sends *)

Section sent_facts.
Context (env : Env) (s : Server).
Implicit Types (st : Conn) (res : Response) (req : Request).

Lemma reply_GoodRequest_fst req clk :
  (reply_GoodRequest env s req clk).1
  = if decide (StatusCode (HandleGoodRequest env s req clk).1 = 404)
    then HandleNotFound (HandleGoodRequest env s req clk).1 req
    else HandleOK (HandleGoodRequest env s req clk).1 req
           (FilePath (HandleGoodRequest env s req clk).1).
Proof.
  unfold reply_GoodRequest.
  by destruct (HandleGoodRequest env s req clk).
Qed.

Lemma reply_GoodRequest_shape req clk :
  ResProto (reply_GoodRequest env s req clk).1 = "HTTP/1.1"
  ∧ (StatusCode (reply_GoodRequest env s req clk).1 = 200
     ∨ (StatusCode (reply_GoodRequest env s req clk).1 = 404
        ∧ FilePath (reply_GoodRequest env s req clk).1 = "")).
Proof.
  rewrite reply_GoodRequest_fst. case_decide; split; try done; auto.
Qed.

(** The responses [HandleConnection] writes are answers to candidates and
    the 400 response to a failed read: what holds of those holds of
    everything sent. *)
Lemma serveAll_sent_Forall (P : Response → Prop) st requests :
  (∀ clk request, P (answer env s clk request)) →
  Forall P (sent st) → Forall P (sent (serveAll env s st requests)).
Proof.
  intros HP. revert st. induction requests as [|r requests IH];
    intros st Hst; [done|]. simpl.
  destruct (serve_answer env s st r) as (_ & Hsent & _).
  assert (Forall P (sent (serve env s st r))).
  { rewrite Hsent. apply Forall_app. split; [done|]. by constructor. }
  destruct (closed (serve env s st r)); [done|]. by apply IH.
Qed.

Lemma iteration_sent_Forall (P : Response → Prop) st ev :
  (∀ clk request, P (answer env s clk request)) →
  (∀ clk, P (HandleBadRequest env Response_zero clk).1) →
  Forall P (sent st) → Forall P (sent (iteration env s st ev)).
Proof.
  intros HA HB Hst. unfold iteration.
  destruct (closed st); [done|]. destruct ev as [|data err]; [done|].
  assert (Forall P (sent (reply_BadRequest env st))) as Hbad.
  { simpl. apply Forall_app. split; [done|]. constructor; [apply HB|done]. }
  simpl. repeat (case_match; try done).
  all: by apply (serveAll_sent_Forall P
                   {| remaining := remaining st +:+ data; sent := sent st;
                      closed := false; clock := clock st |}).
Qed.

Lemma HandleConnection_sent_Forall (P : Response → Prop) evs :
  (∀ clk request, P (answer env s clk request)) →
  (∀ clk, P (HandleBadRequest env Response_zero clk).1) →
  Forall P (sent (HandleConnection env s evs)).
Proof.
  intros HA HB. unfold HandleConnection.
  assert (Forall P (sent Conn_init)) as Hinit by constructor.
  revert Hinit. generalize Conn_init.
  induction evs as [|ev evs IH]; intros st Hst; [done|]. simpl.
  apply IH. by apply iteration_sent_Forall.
Qed.

Lemma answer_cases clk request :
  (∃ req, parses env request = Some req
          ∧ answer env s clk request = (reply_GoodRequest env s req clk).1)
  ∨ (parses env request = None
     ∧ answer env s clk request
       = (HandleBadRequest env Response_zero clk).1).
Proof.
  pose proof (ReadRequest_shape env (request +:+ CRLF)) as Hs.
  unfold parses, answer.
  destruct (ReadRequest env (request +:+ CRLF)) as [[[[req|] recv] e] br'];
    simpl; [|by right].
  left. exists req. split; [done|]. by destruct Hs as [_ ->].
Qed.

Lemma known_statusLine_code res :
  ResProto res = "HTTP/1.1" →
  StatusCode res = 200 ∨ StatusCode res = 400 ∨ StatusCode res = 404 →
  known_statusLine (statusLine res).
Proof.
  unfold known_statusLine, statusLine. intros -> [-> | [-> | ->]]; auto.
Qed.
End sent_facts.

(** X12: every response a connection writes, whatever is read, has the
    protocol [HTTP/1.1] and status 200, 400 or 404, so its status line is
    one of the three known ones, and carries a file to serve only when
    the status is 200. *)
Theorem HandleConnection_sends_known_statuses (env : Env) (s : Server)
    (evs : list Event) :
  Forall (λ res,
            ResProto res = "HTTP/1.1"
            ∧ known_statusLine (statusLine res)
            ∧ (StatusCode res = 200
               ∨ ((StatusCode res = 400 ∨ StatusCode res = 404)
                  ∧ FilePath res = "")))
         (sent (HandleConnection env s evs)).
Proof.
  apply HandleConnection_sent_Forall.
  - intros clk request.
    destruct (answer_cases env s clk request)
      as [(req & _ & ->)|[_ ->]].
    + destruct (reply_GoodRequest_shape env s req clk) as [HP Hst].
      split; [done|]. split; [|tauto].
      apply known_statusLine_code; [done|tauto].
    + split; [done|]. split; [|by right; split; [left|]].
      apply known_statusLine_code; [done|by right; left].
  - intros clk. split; [done|]. split; [|by right; split; [left|]].
    apply known_statusLine_code; [done|by right; left].
Qed.

Section bad_request_facts.
Context (env : Env) (s : Server).
Implicit Types (st : Conn).

Lemma answer_not_BadRequest clk request :
  closes env request = false →
  StatusCode (answer env s clk request) ≠ 400.
Proof.
  unfold closes. intros Hc.
  destruct (answer_cases env s clk request)
    as [(req & Hp & ->)|[Hp _]]; [|by rewrite Hp in Hc].
  destruct (reply_GoodRequest_shape env s req clk) as [_ [-> |[-> _]]]; done.
Qed.

Lemma serveAll_BadRequest_only_last st requests :
  closed st = false → no_BadRequest (sent st) →
  BadRequest_only_last (serveAll env s st requests).
Proof.
  revert st. induction requests as [|r requests IH]; intros st Hst Hno.
  { by left. }
  simpl. destruct (serve_answer env s st r) as (_ & Hsent & Hcl).
  rewrite Hcl. destruct (closes env r) eqn:Hr.
  - right. split; [done|]. by eexists _, _.
  - apply IH; [done|]. rewrite Hsent. apply Forall_app. split; [done|].
    constructor; [by apply answer_not_BadRequest|done].
Qed.

Lemma iteration_BadRequest_only_last st ev :
  BadRequest_only_last st ∧ (closed st = false → no_BadRequest (sent st)) →
  BadRequest_only_last (iteration env s st ev)
  ∧ (closed (iteration env s st ev) = false →
     no_BadRequest (sent (iteration env s st ev))).
Proof.
  intros [Hinv Hopen]. unfold iteration.
  destruct (closed st) eqn:Hst; [split; [done|congruence]|].
  specialize (Hopen eq_refl).
  destruct ev as [|data err]; [by split; [left|]|].
  assert (BadRequest_only_last (reply_BadRequest env st)) as Hbad.
  { right. split; [done|]. by eexists _, _. }
  pose proof (serveAll_BadRequest_only_last
                {| remaining := remaining st +:+ data; sent := sent st;
                   closed := false; clock := clock st |}) as HsA.
  simpl. repeat case_match; try (by split; [left|]); try done.
  - split; [by apply HsA|]. congruence.
  - specialize (HsA (strings_Split
           (str_take (Z.to_nat (strings_LastIndex
              (remaining st +:+ data) requestEndDelim))
              (remaining st +:+ data)) requestEndDelim) eq_refl Hopen).
    destruct HsA as [HsA|[Hcl _]]; [|congruence].
    by split; [left|].
Qed.

Lemma HandleConnection_BadRequest_only_last evs :
  BadRequest_only_last (HandleConnection env s evs).
Proof.
  unfold HandleConnection.
  assert (BadRequest_only_last Conn_init
          ∧ (closed Conn_init = false → no_BadRequest (sent Conn_init)))
    as Hinit by (split; [left|intros _]; constructor).
  revert Hinit. generalize Conn_init.
  induction evs as [|ev evs IH]; intros st Hst; [tauto|]. simpl.
  apply IH. by apply iteration_BadRequest_only_last.
Qed.
End bad_request_facts.

(** X13: a 400 response is the last thing a connection says: whatever is
    read, if the responses written hold a 400, nothing was written after
    it and the connection is closed. *)
Theorem HandleConnection_BadRequest_is_last (env : Env) (s : Server)
    (evs : list Event) (before after : list Response) (res : Response) :
  sent (HandleConnection env s evs) = before ++ res :: after →
  StatusCode res = 400 →
  after = [] ∧ closed (HandleConnection env s evs) = true.
Proof.
  intros Hsent H400.
  destruct (HandleConnection_BadRequest_only_last env s evs)
    as [Hno|(Hcl & l & last & Hl & Hno)].
  - rewrite Hsent in Hno. apply Forall_app in Hno as [_ Hno].
    by apply Forall_cons in Hno as [? _].
  - split; [|done]. rewrite Hsent in Hl.
    destruct after as [|x after _] using rev_ind; [done|].
    rewrite app_comm_cons, app_assoc in Hl.
    apply app_inj_tail in Hl as [<- _].
    apply Forall_app in Hno as [_ Hno].
    by apply Forall_cons in Hno as [? _].
Qed.

Lemma HandleConnection_BadRequest_is_last_witness :
  [] = @nil Response
  ∧ closed (HandleConnection test_env test_server
              [ReadReturns bad_in_the_middle None;
               ReadReturns pipelined None]) = true.
Proof.
  apply (HandleConnection_BadRequest_is_last test_env test_server
           [ReadReturns bad_in_the_middle None; ReadReturns pipelined None]
           [(answer test_env test_server 0 (crlf "GET /a HTTP/1.1~Host: h"))]
           []
           (HandleBadRequest test_env Response_zero 2).1);
    vm_compute; reflexivity.
Defined.

(** ** The accumulation buffer *)

Section buffer_facts.
Context (env : Env) (s : Server).
Implicit Types (st : Conn) (sep : string).

(** After the last occurrence of a separator there is no other one. *)
Lemma no_separator_after_last (t sep : string) :
  sep ≠ "" → 0 ≤ strings_LastIndex t sep →
  strings_Contains
    (str_drop (Z.to_nat (strings_LastIndex t sep + len sep)) t) sep = false.
Proof.
  intros Hsep HL. unfold strings_Contains. apply Z.leb_gt.
  set (k := Z.to_nat (strings_LastIndex t sep + len sep)).
  destruct (Z.lt_ge_cases (strings_Index (str_drop k t) sep) 0) as [|Hi];
    [done|exfalso].
  pose proof (Index_found _ _ Hi) as Hp. rewrite str_drop_drop in Hp.
  pose proof (Index_bounds (str_drop k t) sep) as Hb.
  pose proof (HasPrefix_length _ _ (LastIndex_found t sep HL)) as Hlen.
  pose proof (len_pos sep Hsep) as Hpos.
  unfold len in *. rewrite str_drop_length in Hb, Hlen.
  rewrite LastIndex_last in Hp; [done|lia|lia].
Qed.

(** A read that brings bytes and no error, without a terminator in the
    buffer: the bytes are kept and nothing else happens. *)
Lemma iteration_accumulate st data :
  closed st = false → data ≠ "" →
  strings_Contains (remaining st +:+ data) requestEndDelim = false →
  iteration env s st (ReadReturns data None)
  = {| remaining := remaining st +:+ data; sent := sent st;
       closed := false; clock := clock st |}.
Proof.
  intros Hst Hdata Hc. unfold iteration. rewrite Hst.
  assert ((len data =? 0) = false) as ->.
  { apply Z.eqb_neq. by rewrite len_zero_iff. }
  simpl. by rewrite Hc.
Qed.

Lemma iteration_open_buffer st ev :
  closed st = false → closed (iteration env s st ev) = false →
  strings_Contains (remaining st) requestEndDelim = false →
  strings_Contains (remaining (iteration env s st ev)) requestEndDelim
  = false.
Proof.
  intros Hst. unfold iteration. rewrite Hst.
  destruct ev as [|data err]; [done|]. simpl.
  repeat case_match; try done.
  - intros Hc'. congruence.
  - intros _ _. change 4 with (len requestEndDelim).
    apply (no_separator_after_last _ requestEndDelim); [done|].
    by apply Contains_LastIndex.
Qed.

Lemma run_open_buffer st evs :
  closed (foldl (iteration env s) st evs) = false →
  strings_Contains (remaining st) requestEndDelim = false →
  strings_Contains (remaining (foldl (iteration env s) st evs))
    requestEndDelim = false.
Proof.
  revert st. induction evs as [|ev evs IH]; intros st; [done|]. simpl.
  intros Hopen Hst.
  destruct (closed st) eqn:Hcl.
  { rewrite iteration_closed in * by done. by apply IH. }
  destruct (closed (iteration env s st ev)) eqn:Hcl'.
  { by rewrite run_closed, Hcl' in Hopen. }
  apply IH; [done|]. by apply iteration_open_buffer.
Qed.
End buffer_facts.

(** X14: between two rounds of the loop the buffer of an open connection
    holds no CRLF CRLF: every request that is complete when a read
    returns is handled in that round, none is left waiting. *)
Theorem HandleConnection_open_buffer_incomplete (env : Env) (s : Server)
    (evs : list Event) :
  closed (HandleConnection env s evs) = false →
  strings_Contains (remaining (HandleConnection env s evs)) requestEndDelim
  = false.
Proof. intros H. by apply run_open_buffer. Qed.

Lemma HandleConnection_open_buffer_incomplete_witness :
  strings_Contains
    (remaining (HandleConnection test_env test_server
                  [ReadReturns pipelined None;
                   ReadReturns (crlf "GET /a HT") None]))
    requestEndDelim = false.
Proof.
  apply (HandleConnection_open_buffer_incomplete test_env test_server
           [ReadReturns pipelined None; ReadReturns (crlf "GET /a HT") None]).
  vm_compute; reflexivity.
Defined.

(** X15: a request may arrive in pieces: when the first of two reads
    leaves no terminator in the buffer, the two reads have the effect of
    one read bringing both pieces together (both reads bringing at least
    one byte and no error). *)
Theorem iteration_split_read (env : Env) (s : Server) (st : Conn)
    (d1 d2 : string) :
  closed st = false → d1 ≠ "" → d2 ≠ "" →
  strings_Contains (remaining st +:+ d1) requestEndDelim = false →
  iteration env s (iteration env s st (ReadReturns d1 None))
    (ReadReturns d2 None)
  = iteration env s st (ReadReturns (d1 +:+ d2) None).
Proof.
  intros Hst H1 H2 Hc. rewrite (iteration_accumulate env s st d1) by done.
  unfold iteration. rewrite Hst. simpl closed. cbv iota.
  assert ((len d2 =? 0) = false) as ->.
  { apply Z.eqb_neq. by rewrite len_zero_iff. }
  assert ((len (d1 +:+ d2) =? 0) = false) as ->.
  { apply Z.eqb_neq. rewrite len_zero_iff. by destruct d1. }
  simpl. by rewrite append_assoc.
Qed.

Lemma iteration_split_read_witness :
  iteration test_env test_server
    (iteration test_env test_server Conn_init
       (ReadReturns (crlf "GET /a HTTP/1.1~Ho") None))
    (ReadReturns (crlf "st: h~~GET /b") None)
  = iteration test_env test_server Conn_init
      (ReadReturns (crlf "GET /a HTTP/1.1~Ho" +:+ crlf "st: h~~GET /b") None).
Proof.
  apply (iteration_split_read test_env test_server Conn_init
           (crlf "GET /a HTTP/1.1~Ho") (crlf "st: h~~GET /b"));
    by vm_compute.
Defined.

(** ** Closing on request *)

(** X16: when the canonical names of the five response headers differ
    from one another, the response to a request that parsed carries the
    header [Connection: close] exactly when the request has the [Close]
    flag, be the response a 200 or a 404. *)
Theorem reply_GoodRequest_Connection_header (env : Env) (s : Server)
    (req : Request) (clk : nat) :
  NoDup (CanonicalHeaderKey env <$>
           ["Date"; "Content-Type"; "Content-Length"; "Last-Modified";
            "Connection"]) →
  ResHeader (reply_GoodRequest env s req clk).1
    !! CanonicalHeaderKey env "Connection"
  = if Close req then Some "close" else None.
Proof.
  intros Hnd. rewrite !fmap_cons, fmap_nil in Hnd.
  apply NoDup_cons in Hnd as [Hd Hnd]. apply NoDup_cons in Hnd as [Ht Hnd].
  apply NoDup_cons in Hnd as [Hl Hnd]. apply NoDup_cons in Hnd as [Hm _].
  apply not_elem_of_cons in Hd as [_ Hd].
  apply not_elem_of_cons in Hd as [_ Hd].
  apply not_elem_of_cons in Hd as [_ Hd].
  apply not_elem_of_cons in Hd as [Hd4 _].
  apply not_elem_of_cons in Ht as [_ Ht].
  apply not_elem_of_cons in Ht as [_ Ht].
  apply not_elem_of_cons in Ht as [Ht3 _].
  apply not_elem_of_cons in Hl as [_ Hl].
  apply not_elem_of_cons in Hl as [Hl2 _].
  apply not_elem_of_cons in Hm as [Hm1 _].
  rewrite reply_GoodRequest_fst.
  assert (ResHeader (HandleGoodRequest env s req clk).1
            !! CanonicalHeaderKey env "Connection"
          = if Close req then Some "close" else None) as Hh.
  { destruct (HandleGoodRequest_cases env s req clk)
      as [(h & -> & ->)|(fileRel & fileName & info & _ & _ & _ & _ & ->)];
      simpl; unfold add_Connection_close; destruct (Close req);
      try apply lookup_insert_eq.
    - by apply lookup_singleton_ne.
    - rewrite !lookup_insert_ne by done. by apply lookup_singleton_ne. }
  by case_decide.
Qed.

Lemma reply_GoodRequest_Connection_header_witness :
  ResHeader (reply_GoodRequest test_env test_server
               (request_of "/missing" "h" true) 0).1
    !! CanonicalHeaderKey test_env "Connection"
  = if Close (request_of "/missing" "h" true) then Some "close" else None.
Proof.
  apply (reply_GoodRequest_Connection_header test_env test_server
           (request_of "/missing" "h" true) 0).
  apply (bool_decide_unpack _). vm_compute. exact I.
Defined.

(** X17: every 400 response a connection writes, whatever is read,
    carries the header [Connection: close]. *)
Theorem HandleConnection_BadRequest_says_close (env : Env) (s : Server)
    (evs : list Event) :
  Forall (λ res,
            StatusCode res = 400 →
            ResHeader res !! CanonicalHeaderKey env "Connection"
            = Some "close")
         (sent (HandleConnection env s evs)).
Proof.
  apply HandleConnection_sent_Forall.
  - intros clk request.
    destruct (answer_cases env s clk request)
      as [(req & _ & ->)|[_ ->]].
    + destruct (reply_GoodRequest_shape env s req clk)
        as [_ [-> |[-> _]]]; done.
    + intros _. apply HandleBadRequest_close.
  - intros clk _. apply HandleBadRequest_close.
Qed.

(** ** Surplus fields, run *)

Lemma ReadRequest_refuses_surplus_fields_witness :
  (ReadRequest test_env (crlf "GET / HTTP/1.1 extra~Host: h~")).1.1.1 = None.
Proof.
  apply (ReadRequest_refuses_surplus_fields test_env
           (crlf "GET / HTTP/1.1 extra~Host: h~") "GET / HTTP/1.1 extra"
           (crlf "Host: h~")).
  - vm_compute; reflexivity.
  - vm_compute. lia.
Defined.

(** * What the connection receives *)

(** ** Occurrences of a separator *)

Section occurrence_facts.
Implicit Types (s t a b p sep r rest : string).

Lemma HasPrefix_app_l a b p :
  strings_HasPrefix a p = true → strings_HasPrefix (a +:+ b) p = true.
Proof.
  intros H%HasPrefix_inv. rewrite H, append_assoc. apply HasPrefix_app.
Qed.

(** A prefix test looks at no more bytes than the prefix has. *)
Lemma HasPrefix_app_long a b p :
  (String.length p ≤ String.length a)%nat →
  strings_HasPrefix (a +:+ b) p = strings_HasPrefix a p.
Proof.
  revert a. induction p as [|c p IH]; intros a Hl.
  - by destruct a, b.
  - destruct a as [|d a]; [simpl in Hl; lia|].
    rewrite append_cons. simpl. case_decide; [|done].
    apply IH. simpl in Hl. lia.
Qed.

Lemma HasPrefix_short s p :
  (String.length s < String.length p)%nat → strings_HasPrefix s p = false.
Proof.
  intros Hl. destruct (strings_HasPrefix s p) eqn:E; [|done].
  apply HasPrefix_length in E. lia.
Qed.

(** An occurrence makes [Index] non-negative. *)
Lemma Index_occurs s sep (j : nat) :
  strings_HasPrefix (str_drop j s) sep = true → (j ≤ String.length s)%nat →
  0 ≤ strings_Index s sep.
Proof.
  intros Hj Hl.
  destruct (Z.lt_ge_cases (strings_Index s sep) 0) as [Hneg|]; [|done].
  by rewrite (Index_first s sep j (or_intror Hneg) Hl) in Hj.
Qed.

(** [LastIndex] is the last position at which [sep] occurs. *)
Lemma LastIndex_at s sep (j : nat) :
  strings_HasPrefix (str_drop j s) sep = true →
  (∀ i, (j < i ≤ String.length s)%nat →
        strings_HasPrefix (str_drop i s) sep = false) →
  (j ≤ String.length s)%nat →
  strings_LastIndex s sep = Z.of_nat j.
Proof.
  intros Hj Hafter Hl.
  pose proof (Index_LastIndex s sep (Index_occurs s sep j Hj Hl)) as H0.
  pose proof (LastIndex_found s sep H0) as Hf.
  pose proof (LastIndex_bounds s sep) as Hb. unfold len in Hb.
  destruct (Z.lt_trichotomy (strings_LastIndex s sep) (Z.of_nat j))
    as [Hlt|[Heq|Hgt]]; [|done|].
  - by rewrite (LastIndex_last s sep j Hlt Hl) in Hj.
  - rewrite Hafter in Hf; [done|lia].
Qed.

(** The text before the first occurrence of [sep] holds no [sep]. *)
Lemma Index_take_no_sep s sep :
  sep ≠ "" → 0 ≤ strings_Index s sep →
  strings_Index (str_take (Z.to_nat (strings_Index s sep)) s) sep < 0.
Proof.
  intros Hsep H0.
  set (m := Z.to_nat (strings_Index s sep)).
  destruct (Z.lt_ge_cases (strings_Index (str_take m s) sep) 0) as [|Hi];
    [done|exfalso].
  pose proof (Index_found _ _ Hi) as Hf.
  set (i := Z.to_nat (strings_Index (str_take m s) sep)) in *.
  pose proof (Index_bounds s sep) as Hb. unfold len in Hb.
  assert (String.length (str_take m s) = m) as Hm
    by (apply str_take_length; lia).
  pose proof (HasPrefix_length _ _ Hf) as Hlen.
  rewrite str_drop_length, Hm in Hlen.
  pose proof (len_pos sep Hsep) as Hpos. unfold len in Hpos.
  assert (strings_HasPrefix (str_drop i s) sep = false) as Hno
    by (apply Index_first; lia).
  rewrite <-(str_take_drop m s), str_drop_app_lt in Hno by lia.
  by rewrite (HasPrefix_app_l _ _ _ Hf) in Hno.
Qed.

(** No piece of a split holds the separator. *)
Lemma genSplit_pieces_no_sep n s sep :
  sep ≠ "" → (String.length s ≤ n)%nat →
  Forall (λ r, strings_Contains r sep = false) (genSplit n s sep).
Proof.
  intros Hsep. revert s. induction n as [|n IH]; intros s Hn.
  - destruct s; [|simpl in Hn; lia]. constructor; [|constructor].
    unfold strings_Contains. rewrite Index_empty by done. done.
  - rewrite genSplit_S.
    destruct (Z.ltb_spec (strings_Index s sep) 0) as [Hneg|Hi].
    + constructor; [|constructor]. unfold strings_Contains.
      apply Z.leb_gt. done.
    + constructor.
      * unfold strings_Contains. apply Z.leb_gt.
        by apply Index_take_no_sep.
      * apply IH. pose proof (len_pos sep Hsep) as Hpos. unfold len in *.
        rewrite str_drop_length. lia.
Qed.

Lemma Split_pieces_no_sep s sep :
  sep ≠ "" →
  Forall (λ r, strings_Contains r sep = false) (strings_Split s sep).
Proof. intros Hsep. by apply genSplit_pieces_no_sep. Qed.

(** The terminator of a complete request is the first one in whatever
    text the request starts. *)
Lemma one_request_Index r rest :
  one_request r →
  strings_Index (r +:+ requestEndDelim +:+ rest) requestEndDelim = len r.
Proof.
  unfold one_request. intros Hr. apply Index_at.
  - rewrite str_drop_app. apply HasPrefix_app.
  - intros i Hi.
    rewrite <-append_assoc, str_drop_app_lt
      by (rewrite length_append; lia).
    rewrite HasPrefix_app_long
      by (rewrite str_drop_length, length_append; simpl; lia).
    apply Index_first; [unfold len in Hr; lia|].
    rewrite length_append. lia.
  - rewrite length_append. lia.
Qed.

Lemma one_request_no_sep r :
  one_request r → strings_Index r requestEndDelim < 0.
Proof.
  unfold one_request. intros Hr.
  destruct (Z.lt_ge_cases (strings_Index r requestEndDelim) 0) as [|Hi];
    [done|exfalso].
  pose proof (Index_found _ _ Hi) as Hf.
  pose proof (HasPrefix_length _ _ Hf) as Hlen.
  rewrite str_drop_length in Hlen. simpl in Hlen.
  pose proof (Index_bounds r requestEndDelim) as Hb. unfold len in *.
  assert (strings_HasPrefix
            (str_drop (Z.to_nat (strings_Index r requestEndDelim))
               (r +:+ requestEndDelim)) requestEndDelim = false) as Hno.
  { apply Index_first; [lia|]. rewrite length_append. lia. }
  rewrite str_drop_app_lt in Hno by lia.
  by rewrite (HasPrefix_app_l _ _ _ Hf) in Hno.
Qed.

(** Two complete requests one after the other: the cut is at the second
    terminator, the candidates are the two requests, nothing is left. *)
Lemma two_requests_cut r1 r2 :
  one_request r1 → one_request r2 →
  let buf := r1 +:+ requestEndDelim +:+ r2 +:+ requestEndDelim in
  strings_LastIndex buf requestEndDelim
  = len (r1 +:+ requestEndDelim +:+ r2)
  ∧ str_take (Z.to_nat (strings_LastIndex buf requestEndDelim)) buf
    = r1 +:+ requestEndDelim +:+ r2
  ∧ strings_Split (r1 +:+ requestEndDelim +:+ r2) requestEndDelim = [r1; r2]
  ∧ str_drop (Z.to_nat (strings_LastIndex buf requestEndDelim + 4)) buf = "".
Proof.
  intros H1 H2 buf.
  assert (buf = (r1 +:+ requestEndDelim +:+ r2) +:+ requestEndDelim) as Hbuf
    by (unfold buf; by rewrite !append_assoc).
  assert (String.length buf
          = (String.length (r1 +:+ requestEndDelim +:+ r2) + 4)%nat) as Hlen
    by (by rewrite Hbuf, length_append).
  assert (strings_LastIndex buf requestEndDelim
          = len (r1 +:+ requestEndDelim +:+ r2)) as HL.
  { apply LastIndex_at.
    - rewrite Hbuf, str_drop_app. reflexivity.
    - intros i Hi. apply HasPrefix_short. rewrite str_drop_length.
      change (String.length requestEndDelim) with 4%nat. lia.
    - lia. }
  rewrite HL. unfold len. rewrite Nat2Z.id.
  split; [done|]. split; [by rewrite Hbuf, str_take_app|]. split.
  - assert (requestEndDelim ≠ "") as Hsep by done.
    rewrite Split_cut
      by (try done; rewrite one_request_Index by done; unfold len; lia).
    rewrite one_request_Index by done. unfold len.
    rewrite Nat2Z.id, str_take_app. f_equal.
    replace (Z.to_nat (Z.of_nat (String.length r1)
                       + Z.of_nat (String.length requestEndDelim)))
      with (String.length (r1 +:+ requestEndDelim))
      by (rewrite length_append; lia).
    rewrite <-append_assoc, str_drop_app.
    apply Split_no_sep. by apply one_request_no_sep.
  - replace (Z.to_nat
               (Z.of_nat (String.length (r1 +:+ requestEndDelim +:+ r2)) + 4))
      with (String.length buf) by lia.
    rewrite <-(append_nil_r buf) at 2. apply str_drop_app.
Qed.
End occurrence_facts.

(** ** Writing to the connection *)

Section conn_facts.
Context (env : Env) (s : Server).
Implicit Types (st : Conn) (w : Writer) (x : Conn * Writer) (res : Response).
Implicit Types (l outs : list Response) (h : gmap string string).

(** [sorted_entries] lists the entries of the map, each once, in strictly
    ascending key order. *)
Lemma sorted_entries_spec h :
  sorted_entries h ≡ₚ map_to_list h
  ∧ StronglySorted string_lt (sorted_entries h).*1.
Proof.
  unfold sorted_entries. split.
  - rewrite <-range_keys_entries. apply fmap_Permutation.
    apply sort_Strings_Permutation.
  - rewrite <-list_fmap_compose, list_fmap_id.
    apply StronglySorted_strict; [apply sort_Strings_sorted|].
    rewrite sort_Strings_Permutation. apply NoDup_fst_map_to_list.
Qed.

Lemma sorted_entries_lookup h k v :
  h !! k = Some v → (k, v) ∈ sorted_entries h.
Proof.
  intros Hk. rewrite (proj1 (sorted_entries_spec h)).
  by apply elem_of_map_to_list.
Qed.

(** On a writer that never fails, [Write] appends the bytes of the
    response. *)
Lemma Response_Write_unlimited res w :
  room w = None →
  Response_Write env res w
  = ({| written := written w +:+ response_bytes env res; room := None |},
     None).
Proof.
  intros Hr. unfold Response_Write, WriteStatusLine, WriteSortedHeaders.
  rewrite (bufio_unlimited w _ Hr).
  erewrite bufio_unlimited by reflexivity. simpl written.
  rewrite responseHeader_headerBlock by done.
  unfold response_bytes, sorted_entries, WriteBody, body_of.
  rewrite !append_assoc.
  case_decide; [by rewrite append_nil_r|].
  destruct (os_Open env (FilePath res)) as [content|]; simpl.
  - erewrite bufio_unlimited by reflexivity. simpl written.
    by rewrite !append_assoc.
  - by rewrite append_nil_r.
Qed.

Lemma responses_bytes_app l1 l2 :
  responses_bytes env (l1 ++ l2)
  = responses_bytes env l1 +:+ responses_bytes env l2.
Proof.
  induction l1 as [|res l1 IH]; [done|]. simpl.
  by rewrite IH, append_assoc.
Qed.

Lemma wire_app w l1 l2 : wire env w (l1 ++ l2) = wire env (wire env w l1) l2.
Proof. apply foldl_app. Qed.

(** On a writer that never fails, the responses written reach it whole
    and in their order. *)
Lemma wire_unlimited w l :
  room w = None →
  wire env w l
  = {| written := written w +:+ responses_bytes env l; room := None |}.
Proof.
  revert w. induction l as [|res l IH]; intros w Hr.
  - destruct w as [wr ro]. simpl in *. subst ro. by rewrite append_nil_r.
  - change (wire env w (res :: l))
      with (wire env (Response_Write env res w).1 l).
    rewrite (Response_Write_unlimited res w Hr). simpl fst.
    rewrite IH by done. simpl. by rewrite append_assoc.
Qed.

(** The loop with its writes is the loop, and the connection holds what
    the loop handed to [Write]. *)
Lemma serve_conn_wire x request :
  serve_conn env s x request
  = (serve env s x.1 request,
     wire env x.2 [answer env s (clock x.1) request]).
Proof.
  pose proof (ReadRequest_shape env (request +:+ CRLF)) as Hs.
  unfold serve_conn, serve, answer, reply_BadRequest_conn, reply_BadRequest.
  destruct (ReadRequest env (request +:+ CRLF))
    as [[[[req|] recv] [e|]] br']; simpl in *.
  - destruct Hs as [_ [=]].
  - unfold reply_GoodRequest.
    by destruct (HandleGoodRequest env s req (clock x.1)).
  - done.
  - by destruct Hs as [_ [? [=]]].
Qed.

Lemma serveAll_conn_wire requests x :
  ∃ outs,
    sent (serveAll env s x.1 requests) = sent x.1 ++ outs
    ∧ serveAll_conn env s x requests
      = (serveAll env s x.1 requests, wire env x.2 outs).
Proof.
  revert x. induction requests as [|r requests IH]; intros x.
  { exists []. rewrite app_nil_r. by destruct x. }
  simpl. rewrite serve_conn_wire. simpl fst.
  destruct (serve_answer env s x.1 r) as (_ & Hsent & _).
  destruct (closed (serve env s x.1 r)).
  - by exists [answer env s (clock x.1) r].
  - destruct (IH (serve env s x.1 r,
                  wire env x.2 [answer env s (clock x.1) r]))
      as (outs & Hs & Heq).
    exists (answer env s (clock x.1) r :: outs). simpl in *.
    rewrite Heq, Hs, Hsent, <-app_assoc. done.
Qed.

Lemma iteration_conn_wire x ev :
  ∃ outs,
    sent (iteration env s x.1 ev) = sent x.1 ++ outs
    ∧ iteration_conn env s x ev
      = (iteration env s x.1 ev, wire env x.2 outs).
Proof.
  destruct x as [st w]. unfold iteration_conn, iteration. simpl fst.
  simpl snd.
  assert (∃ outs, sent st = sent st ++ outs
                  ∧ (st, w) = (st, wire env w outs)) as Hnone.
  { exists []. by rewrite app_nil_r. }
  assert (∃ outs, sent (close_conn st) = sent st ++ outs
                  ∧ (close_conn st, w) = (close_conn st, wire env w outs))
    as Hclose.
  { exists []. by rewrite app_nil_r. }
  assert (∃ outs, sent (reply_BadRequest env st) = sent st ++ outs
                  ∧ reply_BadRequest_conn env (st, w)
                    = (reply_BadRequest env st, wire env w outs)) as Hbad.
  { unfold reply_BadRequest_conn, reply_BadRequest. simpl.
    by exists [(HandleBadRequest env Response_zero (clock st)).1]. }
  destruct (closed st); [done|].
  destruct ev as [|data err]; [done|].
  destruct (_ && _); [done|]. destruct (_ && _); [done|].
  destruct (is_Timeout err); [done|].
  destruct (strings_Contains _ _).
  2:{ exists []. by rewrite app_nil_r. }
  set (st0 := {| remaining := remaining st +:+ data; sent := sent st;
                 closed := false; clock := clock st |}).
  destruct (serveAll_conn_wire
              (strings_Split
                 (str_take
                    (Z.to_nat (strings_LastIndex (remaining st +:+ data)
                                 requestEndDelim))
                    (remaining st +:+ data)) requestEndDelim) (st0, w))
    as (outs & Hs & Heq).
  simpl in Hs, Heq. rewrite Heq. simpl fst. simpl snd.
  exists outs. by destruct (closed _).
Qed.

(** A closed connection is left alone: nothing more is written. *)
Lemma iteration_conn_closed x ev :
  closed x.1 = true → iteration_conn env s x ev = x.
Proof. unfold iteration_conn. by intros ->. Qed.

Lemma run_conn_closed x evs :
  closed x.1 = true → foldl (iteration_conn env s) x evs = x.
Proof.
  intros Hx. induction evs as [|ev evs IH]; [done|]. simpl.
  by rewrite iteration_conn_closed.
Qed.

(** [HandleConnection] on a connection [w]: the connection ends up with
    what [Write] made of the responses in [sent], in their order. *)
Lemma run_conn_wire evs st w :
  foldl (iteration_conn env s) (st, wire env w (sent st)) evs
  = (foldl (iteration env s) st evs,
     wire env w (sent (foldl (iteration env s) st evs))).
Proof.
  revert st. induction evs as [|ev evs IH]; intros st; [done|]. simpl.
  destruct (iteration_conn_wire (st, wire env w (sent st)) ev)
    as (outs & Hs & ->).
  simpl in *. by rewrite <-wire_app, <-Hs, IH.
Qed.

Lemma HandleConnection_conn_wire w evs :
  HandleConnection_conn env s w evs
  = (HandleConnection env s evs,
     wire env w (sent (HandleConnection env s evs))).
Proof. apply (run_conn_wire evs Conn_init w). Qed.

(** One read on a connection that never fails to write: the state is
    that of [iteration], and the connection has grown by the bytes of
    the responses added to [sent]. *)
Lemma iteration_conn_bytes st w ev outs :
  room w = None →
  sent (iteration env s st ev) = sent st ++ outs →
  iteration_conn env s (st, w) ev
  = (iteration env s st ev,
     {| written := written w +:+ responses_bytes env outs; room := None |}).
Proof.
  intros Hr Hs. destruct (iteration_conn_wire (st, w) ev) as (outs' & Hs' & ->).
  simpl in *. rewrite Hs in Hs'. apply app_inv_head in Hs' as <-.
  by rewrite wire_unlimited.
Qed.
End conn_facts.

Section batch_facts.
Context (env : Env) (s : Server).

Lemma answer_BadRequest_eq clk c :
  parses env c = None →
  answer env s clk c = (HandleBadRequest env Response_zero clk).1.
Proof.
  unfold parses, answer. intros H.
  by destruct (ReadRequest env (c +:+ CRLF)) as [[[[req|] recv] e] br'].
Qed.

(** The bytes of the 400 response. *)
Lemma response_bytes_BadRequest res clk :
  response_bytes env (HandleBadRequest env res clk).1
  = "HTTP/1.1 400 Bad Request" +:+ CRLF
    +:+ headerBlock (sorted_entries (ResHeader (HandleBadRequest env res clk).1)).
Proof.
  unfold response_bytes, body_of. simpl FilePath.
  rewrite decide_True by done. by rewrite append_nil_r.
Qed.

Lemma responses_bytes_snoc l res :
  responses_bytes env (l ++ [res])
  = responses_bytes env l +:+ response_bytes env res.
Proof. rewrite responses_bytes_app. simpl. by rewrite append_nil_r. Qed.

(** The candidates of a batch, the responses they get and what is left
    of the buffer. *)
Lemma iteration_batch_answers (st : Conn) (data buf : string) :
  closed st = false → data ≠ "" →
  buf = remaining st +:+ data →
  strings_Contains buf requestEndDelim = true →
  let st' := iteration env s st (ReadReturns data None) in
  let requests :=
    strings_Split
      (str_take (Z.to_nat (strings_LastIndex buf requestEndDelim)) buf)
      requestEndDelim in
  ∃ outs : list Response,
    sent st' = sent st ++ outs
    ∧ Forall2 (Answers env s) (take (length outs) requests) outs
    ∧ if closed st'
      then ∃ k c, length outs = S k ∧ requests !! k = Some c
                  ∧ closes env c = true
                  ∧ Forall (λ r, closes env r = false) (take k requests)
      else length outs = length requests
           ∧ Forall (λ r, closes env r = false) requests
           ∧ remaining st'
             = str_drop
                 (Z.to_nat (strings_LastIndex buf requestEndDelim + 4)) buf.
Proof.
  intros Hst Hdata Hbuf Hc st' requests. unfold st'.
  rewrite iteration_batch by (by rewrite <-?Hbuf). rewrite <-Hbuf. simpl.
  fold requests.
  set (st0 := {| remaining := buf; sent := sent st; closed := false;
                 clock := clock st |}).
  destruct (first_closing env requests)
    as [Hall|(pre & c & post & Hreq & Hpre & Hcl)].
  - destruct (serveAll_open env s requests st0 Hall eq_refl)
      as (Hopen & _ & outs & Hs & HA).
    exists outs. rewrite Hopen. cbv iota. cbn [closed sent remaining].
    pose proof (Forall2_length _ _ _ HA) as Hl.
    repeat split; [done| |done|done].
    by rewrite <-Hl, firstn_all.
  - rewrite Hreq.
    destruct (serveAll_closing env s pre c post st0 Hpre Hcl eq_refl)
      as (Hclosed & _ & outs & clk & Hs & HA).
    pose proof (Forall2_length _ _ _ HA) as Hl.
    exists (outs ++ [answer env s clk c]).
    rewrite Hclosed. cbv iota. rewrite Hclosed. cbv iota.
    rewrite length_app. simpl length.
    repeat split; [done| |].
    + replace (length outs + 1)%nat with (length (pre ++ [c]))
        by (rewrite length_app; simpl; lia).
      rewrite (cons_middle c pre post), app_assoc, take_app_length.
      apply Forall2_app; [done|]. constructor; [by eexists|constructor].
    + exists (length pre), c. repeat split; [lia| |done|].
      * by rewrite list_lookup_middle.
      * by rewrite take_app_length.
Qed.
End batch_facts.

(** C1: after a read that brought bytes, with a CRLF CRLF in the
    accumulation buffer [buf], the buffer is cut at the last terminator
    (no terminator starts after position [index]); the text before the
    cut is split on the terminator into the candidates: none of them
    holds a terminator, and joined by the terminator they give that text
    back.  The responses written are the answers to the candidates in
    their order, one each, up to the first candidate that ends the
    connection, and the connection receives their bytes in that order
    and nothing else; when no candidate ends the connection, every
    candidate is answered and exactly the bytes after the last terminator
    are kept as the buffer.  In particular, when the buffer is two
    complete requests, the candidates are these two requests and nothing
    is kept; unless one of them ends the connection, two responses are
    written, the answer to the first and then the answer to the second. *)
Theorem iteration_conn_serves_in_order (env : Env) (s : Server) (st : Conn)
    (w : Writer) (x' : Conn * Writer) (data buf : string) :
  closed st = false → room w = None → data ≠ "" →
  buf = remaining st +:+ data →
  strings_Contains buf requestEndDelim = true →
  x' = iteration_conn env s (st, w) (ReadReturns data None) →
  ∃ (index : nat) (requests : list string) (rest : string)
    (outs : list Response),
    buf = str_take index buf +:+ requestEndDelim +:+ rest
    ∧ String.length (str_take index buf) = index
    ∧ (∀ j, (index < j ≤ String.length buf)%nat →
            strings_HasPrefix (str_drop j buf) requestEndDelim = false)
    ∧ requests = strings_Split (str_take index buf) requestEndDelim
    ∧ strings_Join requests requestEndDelim = str_take index buf
    ∧ Forall (λ r, strings_Contains r requestEndDelim = false) requests
    ∧ sent x'.1 = sent st ++ outs
    ∧ written x'.2 = written w +:+ responses_bytes env outs
    ∧ Forall2 (Answers env s) (take (length outs) requests) outs
    ∧ (if closed x'.1
       then ∃ k c, length outs = S k ∧ requests !! k = Some c
                   ∧ closes env c = true
                   ∧ Forall (λ r, closes env r = false) (take k requests)
       else length outs = length requests
            ∧ Forall (λ r, closes env r = false) requests
            ∧ remaining x'.1 = rest)
    ∧ (∀ r1 r2 : string,
         buf = r1 +:+ requestEndDelim +:+ r2 +:+ requestEndDelim →
         one_request r1 → one_request r2 →
         requests = [r1; r2] ∧ rest = ""
         ∧ (closes env r1 = false → closes env r2 = false →
            ∃ clk1 clk2,
              outs = [answer env s clk1 r1; answer env s clk2 r2]
              ∧ written x'.2
                = written w +:+ response_bytes env (answer env s clk1 r1)
                  +:+ response_bytes env (answer env s clk2 r2)
              ∧ closed x'.1 = false ∧ remaining x'.1 = "")).
Proof.
  intros Hst Hroom Hdata Hbuf Hc ->.
  destruct (iteration_batch_answers env s st data buf Hst Hdata Hbuf Hc)
    as (outs & Hs & HA & HC).
  rewrite (iteration_conn_bytes env s st w _ outs Hroom Hs).
  simpl fst. simpl snd. simpl written.
  pose proof (Contains_LastIndex _ _ Hc) as H0.
  pose proof (LastIndex_bounds buf requestEndDelim) as Hb. unfold len in Hb.
  set (index := strings_LastIndex buf requestEndDelim) in *.
  set (requests := strings_Split (str_take (Z.to_nat index) buf)
                     requestEndDelim) in *.
  set (st' := iteration env s st (ReadReturns data None)) in *.
  exists (Z.to_nat index), requests,
    (str_drop (Z.to_nat (index + 4)) buf), outs.
  split; [by apply (LastIndex_cut buf requestEndDelim)|].
  split; [apply str_take_length; lia|].
  split; [intros j Hj; apply LastIndex_last; lia|].
  split; [done|]. split; [apply Join_genSplit|].
  split; [by apply Split_pieces_no_sep|].
  split; [done|]. split; [done|]. split; [done|]. split.
  { destruct (closed st'); [done|]. tauto. }
  intros r1 r2 Hbuf2 H1 H2.
  destruct (two_requests_cut r1 r2 H1 H2) as (_ & Htake & Hsplit & Hdrop).
  cbv zeta in Htake, Hdrop. rewrite <-Hbuf2 in Htake, Hdrop.
  fold index in Htake, Hdrop.
  assert (requests = [r1; r2]) as Hreq
    by (unfold requests; by rewrite Htake).
  split; [done|]. split; [done|]. intros Hc1 Hc2.
  rewrite Hreq, Hdrop in *.
  destruct (closed st').
  { destruct HC as (k & c & _ & Hk & Hcl & _).
    destruct k as [|[|k]]; simpl in Hk; [| |done];
      injection Hk as <-; congruence. }
  destruct HC as (Hlen & _ & Hrem).
  destruct outs as [|o1 [|o2 [|o3 outs]]]; try done.
  simpl in HA. apply Forall2_cons in HA as [[clk1 ->] HA].
  apply Forall2_cons in HA as [[clk2 ->] _].
  exists clk1, clk2. repeat split; [|done].
  simpl. by rewrite append_nil_r.
Qed.

Lemma iteration_conn_serves_in_order_witness :
  ∃ (index : nat) (requests : list string) (rest : string)
    (outs : list Response),
    pipelined = str_take index pipelined +:+ requestEndDelim +:+ rest
    ∧ String.length (str_take index pipelined) = index
    ∧ (∀ j, (index < j ≤ String.length pipelined)%nat →
            strings_HasPrefix (str_drop j pipelined) requestEndDelim = false)
    ∧ requests = strings_Split (str_take index pipelined) requestEndDelim
    ∧ strings_Join requests requestEndDelim = str_take index pipelined
    ∧ Forall (λ r, strings_Contains r requestEndDelim = false) requests
    ∧ sent (iteration_conn test_env test_server (Conn_init, test_conn)
              (ReadReturns pipelined None)).1
      = sent Conn_init ++ outs
    ∧ written (iteration_conn test_env test_server (Conn_init, test_conn)
                 (ReadReturns pipelined None)).2
      = written test_conn +:+ responses_bytes test_env outs
    ∧ Forall2 (Answers test_env test_server)
        (take (length outs) requests) outs
    ∧ (if closed (iteration_conn test_env test_server (Conn_init, test_conn)
                    (ReadReturns pipelined None)).1
       then ∃ k c, length outs = S k ∧ requests !! k = Some c
                   ∧ closes test_env c = true
                   ∧ Forall (λ r, closes test_env r = false) (take k requests)
       else length outs = length requests
            ∧ Forall (λ r, closes test_env r = false) requests
            ∧ remaining (iteration_conn test_env test_server
                           (Conn_init, test_conn)
                           (ReadReturns pipelined None)).1 = rest)
    ∧ (∀ r1 r2 : string,
         pipelined = r1 +:+ requestEndDelim +:+ r2 +:+ requestEndDelim →
         one_request r1 → one_request r2 →
         requests = [r1; r2] ∧ rest = ""
         ∧ (closes test_env r1 = false → closes test_env r2 = false →
            ∃ clk1 clk2,
              outs = [answer test_env test_server clk1 r1;
                      answer test_env test_server clk2 r2]
              ∧ written (iteration_conn test_env test_server
                           (Conn_init, test_conn)
                           (ReadReturns pipelined None)).2
                = written test_conn
                  +:+ response_bytes test_env
                        (answer test_env test_server clk1 r1)
                  +:+ response_bytes test_env
                        (answer test_env test_server clk2 r2)
              ∧ closed (iteration_conn test_env test_server
                          (Conn_init, test_conn)
                          (ReadReturns pipelined None)).1 = false
              ∧ remaining (iteration_conn test_env test_server
                             (Conn_init, test_conn)
                             (ReadReturns pipelined None)).1 = "")).
Proof.
  apply (iteration_conn_serves_in_order test_env test_server Conn_init
           test_conn _ pipelined pipelined).
  - reflexivity.
  - reflexivity.
  - by vm_compute.
  - vm_compute; reflexivity.
  - vm_compute; reflexivity.
  - reflexivity.
Defined.

(** The pipelining scenario of the specification, run: the connection
    receives the response for [/a], then the response for [/b], and stays
    open with an empty buffer. *)
Example pipelined_conn_two_responses :
  one_request (crlf "GET /a HTTP/1.1~Host: h")
  ∧ one_request (crlf "GET /b HTTP/1.1~Host: h")
  ∧ pipelined
    = crlf "GET /a HTTP/1.1~Host: h" +:+ requestEndDelim
      +:+ crlf "GET /b HTTP/1.1~Host: h" +:+ requestEndDelim
  ∧ let x' := HandleConnection_conn test_env test_server test_conn
                [ReadReturns pipelined None] in
    written x'.2
    = crlf ("HTTP/1.1 200 OK~Content-Length: 3~Content-Type: text/plain~"
            +:+ "Date: t1~Last-Modified: t7~~AAA"
            +:+ "HTTP/1.1 200 OK~Content-Length: 2~Content-Type: text/plain~"
            +:+ "Date: t3~Last-Modified: t7~~BB")
    ∧ closed x'.1 = false ∧ remaining x'.1 = "".
Proof. repeat split; vm_compute; reflexivity. Qed.

(** C7: in a batch cut from the buffer, when the candidates before [c]
    parse and do not ask to close and [c] does not parse, the connection
    receives the bytes of the answers to those candidates and then the
    bytes of one 400 response: the status line [HTTP/1.1 400 Bad Request]
    and a header block that holds [Connection: close].  The connection is
    then closed, the candidates after [c] get no response whatever they
    are, and nothing is read or written afterwards. *)
Theorem iteration_conn_bad_candidate (env : Env) (s : Server) (st : Conn)
    (w : Writer) (x' : Conn * Writer) (data buf : string)
    (pre : list string) (c : string) (post : list string) :
  closed st = false → room w = None → data ≠ "" →
  buf = remaining st +:+ data →
  strings_Contains buf requestEndDelim = true →
  strings_Split
    (str_take (Z.to_nat (strings_LastIndex buf requestEndDelim)) buf)
    requestEndDelim = pre ++ c :: post →
  Forall (λ r, closes env r = false) pre →
  parses env c = None →
  x' = iteration_conn env s (st, w) (ReadReturns data None) →
  ∃ outs bad,
    sent x'.1 = sent st ++ outs ++ [bad]
    ∧ Forall2 (Answers env s) pre outs
    ∧ BadRequest_close env bad
    ∧ written x'.2
      = written w +:+ responses_bytes env outs +:+ response_bytes env bad
    ∧ response_bytes env bad
      = "HTTP/1.1 400 Bad Request" +:+ CRLF
        +:+ headerBlock (sorted_entries (ResHeader bad))
    ∧ (CanonicalHeaderKey env "Connection", "close")
      ∈ sorted_entries (ResHeader bad)
    ∧ closed x'.1 = true
    ∧ ∀ evs, foldl (iteration_conn env s) x' evs = x'.
Proof.
  intros Hst Hroom Hdata Hbuf Hc Hsplit Hpre Hbad ->.
  destruct (iteration_closing env s st data buf pre c post)
    as (outs & clk & Hs & HA & Hcl & _); try done.
  { unfold closes. by rewrite Hbad. }
  rewrite (iteration_conn_bytes env s st w _ _ Hroom Hs).
  simpl fst. simpl snd. simpl written.
  rewrite (answer_BadRequest_eq env s clk c Hbad) in *.
  exists outs, (HandleBadRequest env Response_zero clk).1.
  split; [done|]. split; [done|].
  split; [apply HandleBadRequest_close|].
  split; [by rewrite responses_bytes_snoc|].
  split; [apply response_bytes_BadRequest|].
  split; [apply sorted_entries_lookup, HandleBadRequest_close|].
  split; [done|]. intros evs. by apply run_conn_closed.
Qed.

Lemma iteration_conn_bad_candidate_witness :
  ∃ outs bad,
    sent (iteration_conn test_env test_server (Conn_init, test_conn)
            (ReadReturns bad_in_the_middle None)).1
    = sent Conn_init ++ outs ++ [bad]
    ∧ Forall2 (Answers test_env test_server)
        [crlf "GET /a HTTP/1.1~Host: h"] outs
    ∧ BadRequest_close test_env bad
    ∧ written (iteration_conn test_env test_server (Conn_init, test_conn)
                 (ReadReturns bad_in_the_middle None)).2
      = written test_conn +:+ responses_bytes test_env outs
        +:+ response_bytes test_env bad
    ∧ response_bytes test_env bad
      = "HTTP/1.1 400 Bad Request" +:+ CRLF
        +:+ headerBlock (sorted_entries (ResHeader bad))
    ∧ (CanonicalHeaderKey test_env "Connection", "close")
      ∈ sorted_entries (ResHeader bad)
    ∧ closed (iteration_conn test_env test_server (Conn_init, test_conn)
                (ReadReturns bad_in_the_middle None)).1 = true
    ∧ ∀ evs, foldl (iteration_conn test_env test_server)
               (iteration_conn test_env test_server (Conn_init, test_conn)
                  (ReadReturns bad_in_the_middle None)) evs
             = iteration_conn test_env test_server (Conn_init, test_conn)
                 (ReadReturns bad_in_the_middle None).
Proof.
  apply (iteration_conn_bad_candidate test_env test_server Conn_init
           test_conn _ bad_in_the_middle bad_in_the_middle
           [crlf "GET /a HTTP/1.1~Host: h"] "BAD"
           [crlf "GET /b HTTP/1.1~Host: h"]).
  - reflexivity.
  - reflexivity.
  - by vm_compute.
  - vm_compute; reflexivity.
  - vm_compute; reflexivity.
  - vm_compute; reflexivity.
  - constructor; [vm_compute; reflexivity|constructor].
  - vm_compute; reflexivity.
  - reflexivity.
Defined.

(** The batch with a malformed candidate in the middle, run: the
    connection receives the response for [/a] and the 400 response; the
    valid request for [/b] that follows gets nothing. *)
Example bad_in_the_middle_conn :
  let x' := HandleConnection_conn test_env test_server test_conn
              [ReadReturns bad_in_the_middle None] in
  parses test_env (crlf "GET /b HTTP/1.1~Host: h") ≠ None
  ∧ written x'.2
    = crlf ("HTTP/1.1 200 OK~Content-Length: 3~Content-Type: text/plain~"
            +:+ "Date: t1~Last-Modified: t7~~AAA"
            +:+ "HTTP/1.1 400 Bad Request~Connection: close~Date: t2~~")
  ∧ closed x'.1 = true.
Proof. repeat split; by vm_compute. Qed.

(** C8: in a batch cut from the buffer, when the candidates before [c]
    parse and do not ask to close and [c] parses to a request with the
    [Close] flag, the connection receives the bytes of the answers to
    those candidates and then the bytes of the response to that request;
    the connection is then closed, the candidates after [c] get no
    response, and nothing is read or written afterwards. *)
Theorem iteration_conn_close_requested (env : Env) (s : Server) (st : Conn)
    (w : Writer) (x' : Conn * Writer) (data buf : string)
    (pre : list string) (c : string) (post : list string) (req : Request) :
  closed st = false → room w = None → data ≠ "" →
  buf = remaining st +:+ data →
  strings_Contains buf requestEndDelim = true →
  strings_Split
    (str_take (Z.to_nat (strings_LastIndex buf requestEndDelim)) buf)
    requestEndDelim = pre ++ c :: post →
  Forall (λ r, closes env r = false) pre →
  parses env c = Some req → Close req = true →
  x' = iteration_conn env s (st, w) (ReadReturns data None) →
  ∃ outs clk,
    sent x'.1 = sent st ++ outs ++ [(reply_GoodRequest env s req clk).1]
    ∧ Forall2 (Answers env s) pre outs
    ∧ written x'.2
      = written w +:+ responses_bytes env outs
        +:+ response_bytes env (reply_GoodRequest env s req clk).1
    ∧ closed x'.1 = true
    ∧ ∀ evs, foldl (iteration_conn env s) x' evs = x'.
Proof.
  intros Hst Hroom Hdata Hbuf Hc Hsplit Hpre Hreq Hclose ->.
  destruct (iteration_closing env s st data buf pre c post)
    as (outs & clk & Hs & HA & Hcl & _); try done.
  { unfold closes. by rewrite Hreq. }
  rewrite (iteration_conn_bytes env s st w _ _ Hroom Hs).
  simpl fst. simpl snd. simpl written.
  rewrite (answer_GoodRequest env s clk c req Hreq) in *.
  exists outs, clk. split; [done|]. split; [done|].
  split; [by rewrite responses_bytes_snoc|].
  split; [done|]. intros evs. by apply run_conn_closed.
Qed.

Lemma iteration_conn_close_requested_witness :
  ∃ outs clk,
    sent (iteration_conn test_env test_server (Conn_init, test_conn)
            (ReadReturns close_in_the_middle None)).1
    = sent Conn_init ++ outs
      ++ [(reply_GoodRequest test_env test_server
             {| Method := "GET"; URL := "/b"; Proto := "HTTP/1.1";
                Header := ∅; Host := "h"; Close := true |} clk).1]
    ∧ Forall2 (Answers test_env test_server)
        [crlf "GET /a HTTP/1.1~Host: h"] outs
    ∧ written (iteration_conn test_env test_server (Conn_init, test_conn)
                 (ReadReturns close_in_the_middle None)).2
      = written test_conn +:+ responses_bytes test_env outs
        +:+ response_bytes test_env
              (reply_GoodRequest test_env test_server
                 {| Method := "GET"; URL := "/b"; Proto := "HTTP/1.1";
                    Header := ∅; Host := "h"; Close := true |} clk).1
    ∧ closed (iteration_conn test_env test_server (Conn_init, test_conn)
                (ReadReturns close_in_the_middle None)).1 = true
    ∧ ∀ evs, foldl (iteration_conn test_env test_server)
               (iteration_conn test_env test_server (Conn_init, test_conn)
                  (ReadReturns close_in_the_middle None)) evs
             = iteration_conn test_env test_server (Conn_init, test_conn)
                 (ReadReturns close_in_the_middle None).
Proof.
  apply (iteration_conn_close_requested test_env test_server Conn_init
           test_conn _ close_in_the_middle close_in_the_middle
           [crlf "GET /a HTTP/1.1~Host: h"]
           (crlf "GET /b HTTP/1.1~Host: h~Connection: close")
           [crlf "GET /a HTTP/1.1~Host: h"]).
  - reflexivity.
  - reflexivity.
  - by vm_compute.
  - vm_compute; reflexivity.
  - vm_compute; reflexivity.
  - vm_compute; reflexivity.
  - constructor; [vm_compute; reflexivity|constructor].
  - vm_compute; reflexivity.
  - reflexivity.
  - reflexivity.
Defined.

(** The batch whose second request asks to close, run: the connection
    receives the responses for [/a] and [/b]; the third request of the
    batch and a later read get nothing. *)
Example close_in_the_middle_conn :
  let x' := HandleConnection_conn test_env test_server test_conn
              [ReadReturns close_in_the_middle None;
               ReadReturns pipelined None] in
  written x'.2
  = crlf ("HTTP/1.1 200 OK~Content-Length: 3~Content-Type: text/plain~"
          +:+ "Date: t1~Last-Modified: t7~~AAA"
          +:+ "HTTP/1.1 200 OK~Connection: close~Content-Length: 2~"
          +:+ "Content-Type: text/plain~Date: t3~Last-Modified: t7~~BB")
  ∧ closed x'.1 = true.
Proof. split; vm_compute; reflexivity. Qed.
